(** * CollabCanvas real-time relay: shallow embedding and proofs

    Embeds [server/services/auth.py] (token issue and verification) and
    [server/websocket/yjs_server.py] (the websocket adapter, the auth gate
    and the endpoint), plus the room registry of the relay server; then
    the database retry loop and token refresh of [server/routes/auth.py]
    and the board, sharing and comment routes over a model of the
    database. *)

From Stdlib Require Import ZArith Lia Bool Ascii PrimFloat.
From stdpp Require Import base gmap sets list strings countable.

Open Scope Z_scope.

(* ------------------------------------------------------------------ *)
(** ** Python values and exceptions *)

(** JSON values a decoded JWT payload can carry.  Floats, lists and
    objects are opaque here; only their truthiness matters. *)
Inductive JVal :=
| JStr (s : string)
| JInt (z : Z)
| JBool (b : bool)
| JNull
| JOther (nonempty : bool).

(** Python truthiness of a JSON value. *)
Definition jval_truthy (v : JVal) : bool :=
  match v with
  | JStr s => negb (String.eqb s "")
  | JInt z => negb (z =? 0)
  | JBool b => b
  | JNull => false
  | JOther ne => ne
  end.

(** A decoded payload: the dict returned by [jwt.decode]. *)
Definition Payload := list (string * JVal).

(** [payload.get(key)] *)
Fixpoint dict_get (d : Payload) (k : string) : option JVal :=
  match d with
  | [] => None
  | (k', v) :: d' => if String.eqb k k' then Some v else dict_get d' k
  end.

(** Python [v != s] between an optional JSON value and a [str]. *)
Definition py_ne_str (v : option JVal) (s : string) : bool :=
  match v with
  | Some (JStr s') => negb (String.eqb s' s)
  | _ => true
  end.

(** The exception classes raised on these paths.  [JWTError] stands
    for python-jose's [JWTError] and its subclasses
    ([ExpiredSignatureError], [JWTClaimsError]); [CancelledError] is a
    [BaseException] that is not an [Exception]. *)
Inductive PyExc :=
| WebSocketDisconnect (code : Z)
| StopAsyncIteration
| RuntimeError (msg : string)
| JWTError (msg : string)
| OtherException (name : string)
| CancelledError.

(** [isinstance(e, Exception)] *)
Definition is_Exception (e : PyExc) : bool :=
  match e with
  | CancelledError => false
  | _ => true
  end.

(** [isinstance(e, JWTError)] *)
Definition is_JWTError (e : PyExc) : bool :=
  match e with
  | JWTError _ => true
  | _ => false
  end.

(** Outcome of a Python call: a return value or a raised exception. *)
Inductive PyResult (A : Type) :=
| PyOk (a : A)
| PyErr (e : PyExc).
Arguments PyOk {A} a.
Arguments PyErr {A} e.

(* ------------------------------------------------------------------ *)
(** ** config.py *)

Record Settings := {
  secret_key : string;
  jwt_algorithm : string;
  access_token_expire_minutes : Z;
  refresh_token_expire_days : Z;
}.

(** The defaults of [class Settings] (overridable from the environment). *)
Definition default_settings : Settings := {|
  secret_key := "dev-secret-key-change-in-production";
  jwt_algorithm := "HS256";
  access_token_expire_minutes := 30;
  refresh_token_expire_days := 7;
|}.

(* ------------------------------------------------------------------ *)
(** ** services/auth.py *)

(** Result of python-jose's [jwt.decode]: the payload, or an exception. *)
Inductive DecodeResult :=
| DOk (p : Payload)
| DRaise (e : PyExc).

Section Auth.

(** The JWT library: [jwt.encode(payload, key, algorithm=alg)] and
    [jwt.decode(token, key, algorithms=algs)] at the current time [now]
    (seconds since the epoch). *)
Variable jwt_encode : Payload -> string -> string -> string.
Variable jwt_decode : string -> string -> list string -> Z -> DecodeResult.
Variable settings : Settings.

(** The payload built by [create_access_token] at time [now];
    [exp] is stored by jose as integer seconds. *)
Definition access_payload (user_id : string) (now : Z) : Payload :=
  [("sub", JStr user_id);
   ("exp", JInt (now + access_token_expire_minutes settings * 60));
   ("type", JStr "access")].

Definition create_access_token (user_id : string) (now : Z) : string :=
  jwt_encode (access_payload user_id now) (secret_key settings)
    (jwt_algorithm settings).

Definition refresh_payload (user_id : string) (now : Z) : Payload :=
  [("sub", JStr user_id);
   ("exp", JInt (now + refresh_token_expire_days settings * 86400));
   ("type", JStr "refresh")].

Definition create_refresh_token (user_id : string) (now : Z) : string :=
  jwt_encode (refresh_payload user_id now) (secret_key settings)
    (jwt_algorithm settings).

(** [verify_token(token, token_type)]: only [JWTError] is caught. *)
Definition verify_token (token : string) (token_type : string) (now : Z)
    : PyResult (option JVal) :=
  match jwt_decode token (secret_key settings) [jwt_algorithm settings] now with
  | DOk payload =>
      if py_ne_str (dict_get payload "type") token_type then PyOk None
      else PyOk (dict_get payload "sub")
  | DRaise e => if is_JWTError e then PyOk None else PyErr e
  end.

End Auth.

(* ------------------------------------------------------------------ *)
(** ** websocket/yjs_server.py: WebSocketAdapter *)

Definition bytes := list Byte.byte.

(** The calls the adapter makes on its FastAPI websocket (the transport
    log of this one connection). *)
Inductive WsCall :=
| WsReceiveBytes
| WsSendBytes (data : bytes).

(** [self._websocket] is the connection's single transport, whose calls
    are recorded in the log threaded through the operations below. *)
Record WebSocketAdapter := {
  _room_name : string;
  _closed : bool;
}.

(** [WebSocketAdapter(websocket, room_name)] *)
Definition new_adapter (room_name : string) : WebSocketAdapter :=
  {| _room_name := room_name; _closed := false |}.

Definition set_closed (a : WebSocketAdapter) : WebSocketAdapter :=
  {| _room_name := _room_name a; _closed := true |}.

(** The [path] property. *)
Definition path (a : WebSocketAdapter) : string := _room_name a.

(** What [await self._websocket.receive_bytes()] does at one call. *)
Inductive RecvOutcome :=
| RecvData (d : bytes)
| RecvRaise (e : PyExc).

(** [async def recv(self)] *)
Definition recv (a : WebSocketAdapter) (o : RecvOutcome)
    : WebSocketAdapter * list WsCall * PyResult bytes :=
  match o with
  | RecvData d => (a, [WsReceiveBytes], PyOk d)
  | RecvRaise (WebSocketDisconnect c) =>
      (set_closed a, [WsReceiveBytes], PyErr (WebSocketDisconnect c))
  | RecvRaise e => (a, [WsReceiveBytes], PyErr e)
  end.

(** [async def send(self, data)]; [o] is what [send_bytes] does. *)
Definition send (a : WebSocketAdapter) (data : bytes) (o : option PyExc)
    : WebSocketAdapter * list WsCall * PyResult unit :=
  if negb (_closed a) then
    (a, [WsSendBytes data],
     match o with None => PyOk tt | Some e => PyErr e end)
  else (a, [], PyOk tt).

(** [async def __anext__(self)] *)
Definition anext (a : WebSocketAdapter) (o : RecvOutcome)
    : WebSocketAdapter * list WsCall * PyResult bytes :=
  match o with
  | RecvData d => (a, [WsReceiveBytes], PyOk d)
  | RecvRaise (WebSocketDisconnect _) =>
      (set_closed a, [WsReceiveBytes], PyErr StopAsyncIteration)
  | RecvRaise e =>
      if is_Exception e then (a, [WsReceiveBytes], PyErr StopAsyncIteration)
      else (a, [WsReceiveBytes], PyErr e)
  end.

(** The methods of [WebSocketAdapter] (besides [__init__]), each with the
    transport's behaviour at that call.  The class has no [close]. *)
Inductive AdapterCall :=
| CallPath
| CallRecv (o : RecvOutcome)
| CallSend (data : bytes) (o : option PyExc)
| CallAiter
| CallAnext (o : RecvOutcome).

Definition adapter_step (a : WebSocketAdapter) (c : AdapterCall)
    : WebSocketAdapter * list WsCall :=
  match c with
  | CallPath => (a, [])
  | CallRecv o => let '(a', l, _) := recv a o in (a', l)
  | CallSend d o => let '(a', l, _) := send a d o in (a', l)
  | CallAiter => (a, [])
  | CallAnext o => let '(a', l, _) := anext a o in (a', l)
  end.

(** A sequence of method calls on one adapter, with the transport log. *)
Fixpoint run_adapter (a : WebSocketAdapter) (cs : list AdapterCall)
    : WebSocketAdapter * list WsCall :=
  match cs with
  | [] => (a, [])
  | c :: cs' =>
      let '(a1, l1) := adapter_step a c in
      let '(a2, l2) := run_adapter a1 cs' in (a2, l1 ++ l2)
  end.

(** How an [async for] loop over the adapter ends. *)
Inductive IterEnd :=
| IterStopped            (** [StopAsyncIteration]: the loop ends normally *)
| IterRaised (e : PyExc) (** another exception escapes the loop *)
| IterPending.           (** no more scripted transport outcomes *)

(** [async for data in adapter]: repeated [__anext__] calls, one
    transport outcome each; returns the messages and how it ended. *)
Fixpoint async_for (a : WebSocketAdapter) (outs : list RecvOutcome)
    : WebSocketAdapter * list bytes * IterEnd :=
  match outs with
  | [] => (a, [], IterPending)
  | o :: outs' =>
      match anext a o with
      | (a', _, PyOk d) =>
          let '(a'', ds, e) := async_for a' outs' in (a'', d :: ds, e)
      | (a', _, PyErr StopAsyncIteration) => (a', [], IterStopped)
      | (a', _, PyErr e) => (a', [], IterRaised e)
      end
  end.

(* ------------------------------------------------------------------ *)
(** ** websocket/yjs_server.py: authenticate_websocket and the endpoint *)

(** Python truthiness of [token: Optional[str]]. *)
Definition token_truthy (t : option string) : bool :=
  match t with
  | Some s => negb (String.eqb s "")
  | None => false
  end.

(** Python truthiness of the returned [user_id]. *)
Definition user_truthy (u : option JVal) : bool :=
  match u with
  | Some v => jval_truthy v
  | None => false
  end.

(** Effects of the endpoint on the connection. *)
Inductive Event :=
| EvClose (code : Z) (reason : string)  (** [await websocket.close(...)] *)
| EvAccept                              (** [await websocket.accept()] *)
| EvServe (a : WebSocketAdapter).       (** [await websocket_server.serve(a)] *)

(** What the awaited collaborators do for this connection: [None] is a
    normal return, [Some e] raises [e]. *)
Record EndpointEnv := {
  close_outcome : option PyExc;
  accept_outcome : option PyExc;
  serve_outcome : option PyExc;
}.

Definition raise_opt (o : option PyExc) : PyResult unit :=
  match o with
  | None => PyOk tt
  | Some e => PyErr e
  end.

(** [try: await websocket.close(...) except Exception: pass] *)
Definition close_swallowing (o : option PyExc) : PyResult unit :=
  match o with
  | Some e => if is_Exception e then PyOk tt else PyErr e
  | None => PyOk tt
  end.

Definition WS_1008_POLICY_VIOLATION : Z := 1008.

Section Endpoint.

Variable jwt_decode : string -> string -> list string -> Z -> DecodeResult.
Variable settings : Settings.
Variable now : Z.

Definition authenticate_websocket (token : option string)
    : PyResult (option JVal) :=
  if negb (token_truthy token) then PyOk None
  else match token with
       | Some t => verify_token jwt_decode settings t "access" now
       | None => PyOk None
       end.

(** The body of the [try] block. *)
Definition try_body (env : EndpointEnv) (room_name : string)
    : list Event * PyResult unit :=
  match accept_outcome env with
  | Some e => ([EvAccept], PyErr e)
  | None =>
      let adapter := new_adapter room_name in
      ([EvAccept; EvServe adapter], raise_opt (serve_outcome env))
  end.

(** The [except] clauses of the [try] block, in order. *)
Definition handle_exc (env : EndpointEnv) (e : PyExc)
    : list Event * PyResult unit :=
  match e with
  | WebSocketDisconnect _ => ([], PyOk tt)
  | RuntimeError msg =>
      ([EvClose 1011 (String.substring 0 120 msg)], close_swallowing (close_outcome env))
  | _ =>
      if is_Exception e then
        ([EvClose 1011 "Internal server error"], close_swallowing (close_outcome env))
      else ([], PyErr e)
  end.

Definition websocket_endpoint (env : EndpointEnv) (room_name : string)
    (token : option string) : list Event * PyResult unit :=
  match authenticate_websocket token with
  | PyErr e => ([], PyErr e)
  | PyOk user_id =>
      if token_truthy token && negb (user_truthy user_id) then
        ([EvClose WS_1008_POLICY_VIOLATION "Invalid token"],
         raise_opt (close_outcome env))
      else
        let '(evs, r) := try_body env room_name in
        match r with
        | PyOk _ => (evs, PyOk tt)
        | PyErr e => let '(evs', r') := handle_exc env e in (evs ++ evs', r')
        end
  end.

End Endpoint.

(* ------------------------------------------------------------------ *)
(** ** The room registry *)

Module RoomRegistry.

(** Modelled from the spec: the room registry of pycrdt-websocket's
    [WebsocketServer], whose code is not part of this repository.  Spec
    section 4.3: [join] creates the room if absent and adds the
    connection; [leave] removes it and, when this was the last member,
    deletes the room; section 3 and section 9: the deletion of empty rooms is
    governed by the [auto_clean_rooms] option.  Connections are
    identified by a number. *)
Record WebsocketServer := {
  auto_clean_rooms : bool;
  rooms : gmap string (gset nat);
}.

Definition make_server (auto_clean : bool) : WebsocketServer :=
  {| auto_clean_rooms := auto_clean; rooms := ∅ |}.

(** [websocket_server = WebsocketServer(auto_clean_rooms=True)] *)
Definition websocket_server : WebsocketServer := make_server true.

Definition join (room : string) (conn : nat) (s : WebsocketServer)
    : WebsocketServer :=
  {| auto_clean_rooms := auto_clean_rooms s;
     rooms := <[room := {[conn]} ∪ default ∅ (rooms s !! room)]> (rooms s) |}.

Definition leave (room : string) (conn : nat) (s : WebsocketServer)
    : WebsocketServer :=
  match rooms s !! room with
  | None => s
  | Some m =>
      let m' := m ∖ {[conn]} in
      if auto_clean_rooms s && bool_decide (m' = ∅) then
        {| auto_clean_rooms := auto_clean_rooms s;
           rooms := delete room (rooms s) |}
      else
        {| auto_clean_rooms := auto_clean_rooms s;
           rooms := <[room := m']> (rooms s) |}
  end.

Inductive RegOp :=
| Join (room : string) (conn : nat)
| Leave (room : string) (conn : nat).

Definition reg_step (s : WebsocketServer) (op : RegOp) : WebsocketServer :=
  match op with
  | Join r c => join r c s
  | Leave r c => leave r c s
  end.

Definition run_ops (s : WebsocketServer) (ops : list RegOp) : WebsocketServer :=
  fold_left reg_step ops s.

(** Every retained room has at least one member. *)
Definition no_empty_rooms (s : WebsocketServer) : Prop :=
  forall r m, rooms s !! r = Some m -> m ≠ ∅.

End RoomRegistry.

(* ------------------------------------------------------------------ *)
(** ** A concrete JWT codec, used to instantiate the library *)

Module ToyJwt.

#[global] Instance JVal_eq_dec : EqDecision JVal.
Proof. solve_decision. Defined.

Definition jval_to_sum (v : JVal) : string + Z + bool + unit + bool :=
  match v with
  | JStr s => inl (inl (inl (inl s)))
  | JInt z => inl (inl (inl (inr z)))
  | JBool b => inl (inl (inr b))
  | JNull => inl (inr tt)
  | JOther ne => inr ne
  end.

Definition jval_of_sum (x : string + Z + bool + unit + bool) : JVal :=
  match x with
  | inl (inl (inl (inl s))) => JStr s
  | inl (inl (inl (inr z))) => JInt z
  | inl (inl (inr b)) => JBool b
  | inl (inr _) => JNull
  | inr ne => JOther ne
  end.

#[global] Instance JVal_countable : Countable JVal.
Proof. refine (inj_countable' jval_to_sum jval_of_sum _). by intros []. Defined.

(** A positive number written in binary digits, and read back. *)
Fixpoint pos_to_str (p : positive) : string :=
  match p with
  | xI p' => String "1"%char (pos_to_str p')
  | xO p' => String "0"%char (pos_to_str p')
  | xH => EmptyString
  end.

Fixpoint str_to_pos (s : string) : positive :=
  match s with
  | String c s' => if Ascii.eqb c "1"%char then xI (str_to_pos s') else xO (str_to_pos s')
  | EmptyString => xH
  end.

Lemma str_to_pos_to_str p : str_to_pos (pos_to_str p) = p.
Proof. induction p; simpl; congruence. Qed.

(** The signed token carries payload, key and algorithm. *)
Definition encode_tok (p : Payload) (key alg : string) : string :=
  pos_to_str (encode (p, key, alg)).

Definition decode_tok (tok key : string) (algs : list string) (now : Z)
    : DecodeResult :=
  match decode (str_to_pos tok) : option (Payload * string * string) with
  | Some (p, k, alg) =>
      if String.eqb k key && existsb (String.eqb alg) algs then
        match dict_get p "exp" with
        | Some (JInt e) =>
            if now <=? e then DOk p else DRaise (JWTError "Signature has expired.")
        | _ => DOk p
        end
      else DRaise (JWTError "Signature verification failed.")
  | None => DRaise (JWTError "Not enough segments")
  end.

Lemma decode_encode_tok p key alg now e :
  dict_get p "exp" = Some (JInt e) -> now <= e ->
  decode_tok (encode_tok p key alg) key [alg] now = DOk p.
Proof.
  intros He Hle. unfold decode_tok, encode_tok.
  rewrite str_to_pos_to_str, decode_encode.
  rewrite String.eqb_refl. simpl. rewrite String.eqb_refl. simpl.
  rewrite He. replace (now <=? e) with true by lia. reflexivity.
Qed.

End ToyJwt.

(* ------------------------------------------------------------------ *)
(** ** Sanity checks on concrete inputs *)

Definition reject_all (tok key : string) (algs : list string) (now : Z)
    : DecodeResult := DRaise (JWTError "Not enough segments").

Example endpoint_rejects_bad_token :
  websocket_endpoint reject_all default_settings 0
    {| close_outcome := None; accept_outcome := None; serve_outcome := None |}
    "board-42" (Some "bad")
  = ([EvClose 1008 "Invalid token"], PyOk tt).
Proof. reflexivity. Qed.

Example endpoint_anonymous :
  websocket_endpoint reject_all default_settings 0
    {| close_outcome := None; accept_outcome := None; serve_outcome := None |}
    "board-42" None
  = ([EvAccept; EvServe (new_adapter "board-42")], PyOk tt).
Proof. reflexivity. Qed.

Example iteration_on_runtime_error :
  async_for (new_adapter "board-7") [RecvData [Byte.x01]; RecvRaise (RuntimeError "boom")]
  = (new_adapter "board-7", [[Byte.x01]], IterStopped).
Proof. reflexivity. Qed.

Example verify_toy_access :
  verify_token ToyJwt.decode_tok default_settings
    (create_access_token ToyJwt.encode_tok default_settings "alice" 100) "access" 200
  = PyOk (Some (JStr "alice")).
Proof. vm_compute. reflexivity. Qed.

Example verify_toy_refresh_as_access :
  verify_token ToyJwt.decode_tok default_settings
    (create_refresh_token ToyJwt.encode_tok default_settings "alice" 100) "access" 200
  = PyOk None.
Proof. vm_compute. reflexivity. Qed.

(* ------------------------------------------------------------------ *)
(** ** Auth gate and endpoint *)

Section EndpointProofs.

Variable jwt_decode : string -> string -> list string -> Z -> DecodeResult.
Variable settings : Settings.
Variable now : Z.

(** The event a connection reaches [Active] through. *)
Definition served (evs : list Event) : Prop := exists a, In (EvServe a) evs.

(** Claim C1: when a non-empty token is presented and [verify_token]
    rejects it, the endpoint closes the websocket with code 1008 and
    returns (or propagates that close's outcome) without accepting the
    connection and without handing any adapter to the relay server. *)
Theorem endpoint_rejects_invalid_token (env : EndpointEnv) (room_name t : string) :
  t <> "" ->
  verify_token jwt_decode settings t "access" now = PyOk None ->
  websocket_endpoint jwt_decode settings now env room_name (Some t)
    = ([EvClose WS_1008_POLICY_VIOLATION "Invalid token"], raise_opt (close_outcome env))
  /\ ~ In EvAccept (fst (websocket_endpoint jwt_decode settings now env room_name (Some t)))
  /\ ~ served (fst (websocket_endpoint jwt_decode settings now env room_name (Some t))).
Proof.
  intros Hne Hv.
  assert (Htok : token_truthy (Some t) = true).
  { simpl. apply String.eqb_neq in Hne. now rewrite Hne. }
  assert (Heq : websocket_endpoint jwt_decode settings now env room_name (Some t)
    = ([EvClose WS_1008_POLICY_VIOLATION "Invalid token"], raise_opt (close_outcome env))).
  { unfold websocket_endpoint, authenticate_websocket. rewrite Htok. simpl negb.
    cbv iota. rewrite Hv. reflexivity. }
  rewrite Heq. simpl. split; [reflexivity|]. split.
  - intros [H|H]; [discriminate|contradiction].
  - intros [a [H|H]]; [discriminate|contradiction].
Qed.

(** Claim C7: with no token or an empty token, [authenticate_websocket]
    returns [None] whatever the token decoder does, and the endpoint
    accepts the websocket first and, when the accept succeeds, hands a
    fresh adapter for the room to the relay server. *)
Theorem endpoint_admits_anonymous (env : EndpointEnv) (room_name : string)
    (token : option string) :
  token = None \/ token = Some "" ->
  (forall dec : string -> string -> list string -> Z -> DecodeResult,
     authenticate_websocket dec settings now token = PyOk None) /\
  exists rest,
    fst (websocket_endpoint jwt_decode settings now env room_name token) = EvAccept :: rest /\
    (accept_outcome env = None -> exists rest', rest = EvServe (new_adapter room_name) :: rest').
Proof.
  intros Htok.
  assert (Hf : token_truthy token = false) by (destruct Htok; subst; reflexivity).
  assert (Ha : forall dec : string -> string -> list string -> Z -> DecodeResult,
     authenticate_websocket dec settings now token = PyOk None).
  { intros dec. unfold authenticate_websocket. now rewrite Hf. }
  split; [exact Ha|].
  unfold websocket_endpoint. rewrite Ha, Hf. simpl andb. cbv iota.
  unfold try_body. destruct (accept_outcome env) as [e|] eqn:Hacc.
  - simpl. destruct (handle_exc env e) as [evs' r'].
    simpl. eexists. split; [reflexivity|]. discriminate.
  - destruct (raise_opt (serve_outcome env)) as [u|e].
    + simpl. eexists. split; [reflexivity|]. intros _. eexists; reflexivity.
    + destruct (handle_exc env e) as [evs' r'].
      simpl. eexists. split; [reflexivity|]. intros _. eexists; reflexivity.
Qed.

End EndpointProofs.

(** The close codes the endpoint sends, in order. *)
Definition close_codes (evs : list Event) : list Z :=
  List.flat_map (fun ev => match ev with EvClose c _ => [c] | _ => [] end) evs.

Section EndpointErrors.

Variable jwt_decode : string -> string -> list string -> Z -> DecodeResult.
Variable settings : Settings.
Variable now : Z.

(** Claim C9 (amended): errors raised before the [try] block (by the
    authentication or by the 1008 close of a rejected connection) reach
    the caller unchanged.  For an admitted connection, every [Exception]
    raised by the accept or by the relay server is caught: the endpoint
    sends no close or a single close with code 1011 and an error of that
    close which is an [Exception] is swallowed; only a [BaseException]
    that is not an [Exception] (such as a cancellation) escapes. *)
Theorem endpoint_error_containment (env : EndpointEnv) (room_name : string)
    (token : option string) :
  match authenticate_websocket jwt_decode settings now token with
  | PyErr e => websocket_endpoint jwt_decode settings now env room_name token = ([], PyErr e)
  | PyOk u =>
      if token_truthy token && negb (user_truthy u) then
        websocket_endpoint jwt_decode settings now env room_name token
          = ([EvClose WS_1008_POLICY_VIOLATION "Invalid token"], raise_opt (close_outcome env))
      else
        let '(evs, r) := websocket_endpoint jwt_decode settings now env room_name token in
        (forall e, r = PyErr e -> is_Exception e = false) /\
        (close_codes evs = [] \/ close_codes evs = [1011])
  end.
Proof.
  unfold websocket_endpoint.
  destruct (authenticate_websocket jwt_decode settings now token) as [u|e]; [|reflexivity].
  destruct (token_truthy token && negb (user_truthy u)); [reflexivity|].
  unfold try_body.
  assert (Hh : forall e, let '(evs', r') := handle_exc env e in
            (forall e', r' = PyErr e' -> is_Exception e' = false) /\
            (close_codes evs' = [] \/ close_codes evs' = [1011])).
  { intros e. unfold handle_exc, close_swallowing.
    destruct e; simpl;
      first [ split; [intros ? H; discriminate H | auto]
            | destruct (close_outcome env) as [[]|]; simpl;
              split; try (intros ? H; inversion H; subst; reflexivity);
              try (intros ? H; discriminate H); auto ]. }
  destruct (accept_outcome env) as [e|].
  - specialize (Hh e). destruct (handle_exc env e) as [evs' r'].
    destruct Hh as [H1 H2]. split; [exact H1|]. simpl. exact H2.
  - destruct (serve_outcome env) as [e|]; simpl.
    + specialize (Hh e). destruct (handle_exc env e) as [evs' r'].
      destruct Hh as [H1 H2]. split; [exact H1|]. simpl. exact H2.
    + split; [intros ? H; discriminate H| left; reflexivity].
Qed.

End EndpointErrors.

(** Claim C9 (counterexample): the 1008 close of a rejected connection
    lies outside the [try] block, so an error it raises escapes the
    endpoint; and a cancellation raised while serving is not caught by
    [except Exception]. *)
Lemma endpoint_error_escapes :
  snd (websocket_endpoint reject_all default_settings 0
         {| close_outcome := Some (RuntimeError "Cannot call send once a close message has been sent.");
            accept_outcome := None; serve_outcome := None |}
         "board-42" (Some "bad"))
    = PyErr (RuntimeError "Cannot call send once a close message has been sent.") /\
  snd (websocket_endpoint reject_all default_settings 0
         {| close_outcome := None; accept_outcome := None;
            serve_outcome := Some CancelledError |}
         "board-42" None)
    = PyErr CancelledError.
Proof. split; reflexivity. Qed.

(* ------------------------------------------------------------------ *)
(** ** Token verification *)

Section AuthProofs.

Variable jwt_encode : Payload -> string -> string -> string.
Variable jwt_decode : string -> string -> list string -> Z -> DecodeResult.
Variable settings : Settings.

(** The JWT library's round trip: a token signed with [key] and [alg]
    decodes, under the same key and algorithm, to its payload while the
    payload's [exp] has not passed. *)
Definition jwt_roundtrip : Prop :=
  forall p key alg now e,
    dict_get p "exp" = Some (JInt e) -> now <= e ->
    jwt_decode (jwt_encode p key alg) key [alg] now = DOk p.

(** python-jose's contract: every failure of [jwt.decode] (malformed
    token, bad signature, expired token, invalid claims) is a [JWTError]. *)
Definition decode_raises_only_jwt_errors : Prop :=
  forall tok key algs now e,
    jwt_decode tok key algs now = DRaise e -> is_JWTError e = true.

(** Claim C5: verifying, before its expiry and under the same settings,
    a token just issued by [create_access_token] (resp.
    [create_refresh_token]) with expected type ["access"] (resp.
    ["refresh"]) yields the user id it was issued for. *)
Theorem verify_created_tokens (user_id : string) (t_issue t_verify : Z) :
  jwt_roundtrip ->
  (t_verify <= t_issue + access_token_expire_minutes settings * 60 ->
   verify_token jwt_decode settings
     (create_access_token jwt_encode settings user_id t_issue) "access" t_verify
   = PyOk (Some (JStr user_id))) /\
  (t_verify <= t_issue + refresh_token_expire_days settings * 86400 ->
   verify_token jwt_decode settings
     (create_refresh_token jwt_encode settings user_id t_issue) "refresh" t_verify
   = PyOk (Some (JStr user_id))).
Proof.
  intros Hrt. split; intros Hle.
  - unfold verify_token, create_access_token.
    rewrite (Hrt _ _ _ _ (t_issue + access_token_expire_minutes settings * 60));
      [|reflexivity|exact Hle].
    reflexivity.
  - unfold verify_token, create_refresh_token.
    rewrite (Hrt _ _ _ _ (t_issue + refresh_token_expire_days settings * 86400));
      [|reflexivity|exact Hle].
    reflexivity.
Qed.

(** Claim C6: under python-jose's contract, [verify_token] never raises;
    it returns [None] when decoding fails or when the payload's [type]
    differs from the expected type, and the payload's [sub] (possibly
    absent) otherwise. *)
Theorem verify_token_total (token token_type : string) (now : Z) :
  decode_raises_only_jwt_errors ->
  (exists r, verify_token jwt_decode settings token token_type now = PyOk r) /\
  (forall e, jwt_decode token (secret_key settings) [jwt_algorithm settings] now = DRaise e ->
     verify_token jwt_decode settings token token_type now = PyOk None) /\
  (forall p, jwt_decode token (secret_key settings) [jwt_algorithm settings] now = DOk p ->
     dict_get p "type" <> Some (JStr token_type) ->
     verify_token jwt_decode settings token token_type now = PyOk None) /\
  (forall p, jwt_decode token (secret_key settings) [jwt_algorithm settings] now = DOk p ->
     dict_get p "type" = Some (JStr token_type) ->
     verify_token jwt_decode settings token token_type now = PyOk (dict_get p "sub")).
Proof.
  intros Honly. unfold verify_token.
  destruct (jwt_decode token (secret_key settings) [jwt_algorithm settings] now)
    as [p|e] eqn:Hd.
  - split; [|split; [|split]].
    + destruct (py_ne_str (dict_get p "type") token_type); eexists; reflexivity.
    + intros e He. discriminate He.
    + intros p' Hp Hty. injection Hp as <-.
      unfold py_ne_str. destruct (dict_get p "type") as [[s| | | |]|]; try reflexivity.
      destruct (String.eqb s token_type) eqn:Hs; [|reflexivity].
      apply String.eqb_eq in Hs. subst. contradiction.
    + intros p' Hp Hty. injection Hp as <-. rewrite Hty. simpl.
      now rewrite String.eqb_refl.
  - rewrite (Honly _ _ _ _ _ Hd). split; [|split; [|split]].
    + eexists; reflexivity.
    + intros e' _. reflexivity.
    + intros p He. discriminate He.
    + intros p He. discriminate He.
Qed.

End AuthProofs.

(** The toy codec satisfies python-jose's contract and round trip. *)
Lemma toy_roundtrip : jwt_roundtrip ToyJwt.encode_tok ToyJwt.decode_tok.
Proof. intros p key alg now e. apply ToyJwt.decode_encode_tok. Qed.

Lemma toy_only_jwt_errors : decode_raises_only_jwt_errors ToyJwt.decode_tok.
Proof.
  intros tok key algs now e. unfold ToyJwt.decode_tok.
  destruct (decode _) as [[[p k] alg]|]; [|intros H; injection H as <-; reflexivity].
  destruct (_ && _); [|intros H; injection H as <-; reflexivity].
  destruct (dict_get p "exp") as [[| z | | |]|]; try discriminate.
  destruct (now <=? z); [discriminate|intros H; injection H as <-; reflexivity].
Qed.

Lemma verify_created_tokens_witness :
  jwt_roundtrip ToyJwt.encode_tok ToyJwt.decode_tok /\
  verify_token ToyJwt.decode_tok default_settings
    (create_access_token ToyJwt.encode_tok default_settings "alice" 100) "access" 1900
  = PyOk (Some (JStr "alice")).
Proof.
  split; [exact toy_roundtrip|].
  apply (proj1 (verify_created_tokens ToyJwt.encode_tok ToyJwt.decode_tok default_settings
                  "alice" 100 1900 toy_roundtrip)).
  simpl. lia.
Defined.

Lemma verify_token_total_witness :
  decode_raises_only_jwt_errors ToyJwt.decode_tok /\
  exists r, verify_token ToyJwt.decode_tok default_settings "not-a-jwt" "access" 0 = PyOk r.
Proof.
  split; [exact toy_only_jwt_errors|].
  exact (proj1 (verify_token_total ToyJwt.decode_tok default_settings "not-a-jwt" "access" 0
                  toy_only_jwt_errors)).
Defined.

(** Claim C1 (witness): a token the decoder rejects as expired. *)
Lemma endpoint_rejects_invalid_token_witness :
  websocket_endpoint reject_all default_settings 0
    {| close_outcome := None; accept_outcome := None; serve_outcome := None |}
    "board-42" (Some "expired")
    = ([EvClose WS_1008_POLICY_VIOLATION "Invalid token"], PyOk tt).
Proof.
  exact (proj1 (endpoint_rejects_invalid_token reject_all default_settings 0
    {| close_outcome := None; accept_outcome := None; serve_outcome := None |}
    "board-42" "expired" ltac:(discriminate) ltac:(reflexivity))).
Defined.

(** Claim C7 (witness): an anonymous connection to ["board-42"]. *)
Lemma endpoint_admits_anonymous_witness :
  authenticate_websocket reject_all default_settings 0 None = PyOk None.
Proof.
  exact (proj1 (endpoint_admits_anonymous reject_all default_settings 0
    {| close_outcome := None; accept_outcome := None; serve_outcome := None |}
    "board-42" None (or_introl eq_refl)) reject_all).
Defined.

(* ------------------------------------------------------------------ *)
(** ** The adapter *)

(** A receive call whose transport reports a peer disconnect. *)
Definition is_disconnect_recv (c : AdapterCall) : bool :=
  match c with
  | CallRecv (RecvRaise (WebSocketDisconnect _)) => true
  | CallAnext (RecvRaise (WebSocketDisconnect _)) => true
  | _ => false
  end.

(** The transport log contains no transmission. *)
Definition no_sends (l : list WsCall) : Prop := forall d, ~ In (WsSendBytes d) l.

Lemma set_closed_id (a : WebSocketAdapter) : _closed a = true -> set_closed a = a.
Proof. destruct a as [r c]. simpl. intros ->. reflexivity. Qed.

Lemma no_sends_app (l1 l2 : list WsCall) : no_sends l1 -> no_sends l2 -> no_sends (l1 ++ l2).
Proof. intros H1 H2 d Hin. apply in_app_or in Hin as [H|H]; [exact (H1 d H)|exact (H2 d H)]. Qed.

Lemma no_sends_receive : no_sends [WsReceiveBytes].
Proof. intros d [H|H]; [discriminate|contradiction]. Qed.

Lemma no_sends_nil : no_sends [].
Proof. intros d H. contradiction. Qed.

(** On a closed adapter, each method keeps the adapter as it is and
    performs no transmission; the receive methods still read once. *)
Lemma step_closed_fixed (a : WebSocketAdapter) (c : AdapterCall) :
  _closed a = true ->
  fst (adapter_step a c) = a /\ no_sends (snd (adapter_step a c)).
Proof.
  intros Hc. destruct c as [|o|d o| |o]; simpl.
  - split; [reflexivity|apply no_sends_nil].
  - destruct o as [d|[]]; simpl; rewrite ?set_closed_id by exact Hc;
      split; try reflexivity; apply no_sends_receive.
  - unfold send. rewrite Hc. simpl. split; [reflexivity|apply no_sends_nil].
  - split; [reflexivity|apply no_sends_nil].
  - destruct o as [d|[]]; simpl; rewrite ?set_closed_id by exact Hc;
      try destruct (is_Exception _); simpl;
      split; try reflexivity; apply no_sends_receive.
Qed.

Lemma run_closed_fixed (a : WebSocketAdapter) (cs : list AdapterCall) :
  _closed a = true ->
  fst (run_adapter a cs) = a /\ no_sends (snd (run_adapter a cs)).
Proof.
  intros Hc. induction cs as [|c cs IH]; simpl.
  - split; [reflexivity|apply no_sends_nil].
  - destruct (step_closed_fixed a c Hc) as [H1 H2].
    destruct (adapter_step a c) as [a1 l1]. simpl in H1, H2. subst a1.
    destruct (run_adapter a cs) as [a2 l2]. destruct IH as [IH1 IH2].
    split; [exact IH1|apply no_sends_app; assumption].
Qed.

Lemma step_closes_only_on_disconnect (a : WebSocketAdapter) (c : AdapterCall) :
  _closed a = false -> _closed (fst (adapter_step a c)) = true ->
  is_disconnect_recv c = true.
Proof.
  intros Hf Ht. destruct c as [|o|d o| |o]; simpl in *.
  - congruence.
  - destruct o as [d|[]]; simpl in *; congruence.
  - unfold send in Ht. rewrite Hf in Ht. simpl in Ht. congruence.
  - congruence.
  - destruct o as [d|[]]; simpl in *; try destruct (is_Exception _); simpl in *; congruence.
Qed.

Lemma step_disconnect_closes (a : WebSocketAdapter) (c : AdapterCall) :
  is_disconnect_recv c = true -> _closed (fst (adapter_step a c)) = true.
Proof.
  destruct c as [|[|[]]|d o| |[|[]]]; simpl; try discriminate; reflexivity.
Qed.

Lemma run_adapter_app (a : WebSocketAdapter) (cs1 cs2 : list AdapterCall) :
  fst (run_adapter a (cs1 ++ cs2)) = fst (run_adapter (fst (run_adapter a cs1)) cs2).
Proof.
  revert a. induction cs1 as [|c cs1 IH]; intros a; simpl.
  - destruct (run_adapter a cs2). reflexivity.
  - destruct (adapter_step a c) as [a1 l1].
    specialize (IH a1).
    destruct (run_adapter a1 (cs1 ++ cs2)) as [x lx] eqn:E1.
    destruct (run_adapter a1 cs1) as [y ly] eqn:E2. simpl in *.
    rewrite IH. destruct (run_adapter y cs2). reflexivity.
Qed.

Lemma run_adapter_single (a : WebSocketAdapter) (c : AdapterCall) :
  fst (run_adapter a [c]) = fst (adapter_step a c).
Proof. simpl. destruct (adapter_step a c). reflexivity. Qed.

(** Claim C10: the [_closed] flag starts [False]; no method resets it;
    a method sets it only when its receive observes a peer disconnect;
    and once a receive has observed a disconnect, every later method
    call transmits nothing and every later [send] returns without error. *)
Theorem closed_flag_monotone (room_name : string) (a : WebSocketAdapter)
    (c : AdapterCall) (cs1 cs2 : list AdapterCall) (data : bytes) (o : option PyExc) :
  _closed (new_adapter room_name) = false /\
  (_closed a = true -> _closed (fst (adapter_step a c)) = true) /\
  (_closed a = false -> _closed (fst (adapter_step a c)) = true ->
   is_disconnect_recv c = true) /\
  (is_disconnect_recv c = true ->
   let a1 := fst (run_adapter a (cs1 ++ [c])) in
   no_sends (snd (run_adapter a1 cs2)) /\
   send (fst (run_adapter a1 cs2)) data o = (fst (run_adapter a1 cs2), [], PyOk tt)).
Proof.
  split; [reflexivity|]. split.
  { intros Hc. rewrite (proj1 (step_closed_fixed a c Hc)). exact Hc. }
  split; [apply step_closes_only_on_disconnect|].
  intros Hd a1.
  assert (H1 : _closed a1 = true).
  { unfold a1. rewrite run_adapter_app, run_adapter_single.
    apply step_disconnect_closes, Hd. }
  destruct (run_closed_fixed a1 cs2 H1) as [Hfix Hns].
  split; [exact Hns|]. rewrite Hfix. unfold send. rewrite H1. reflexivity.
Qed.

Lemma closed_flag_monotone_witness :
  let a1 := fst (run_adapter (new_adapter "board-7")
                   ([] ++ [CallRecv (RecvRaise (WebSocketDisconnect 1000))])) in
  no_sends (snd (run_adapter a1 [CallSend [Byte.x01] None])) /\
  send (fst (run_adapter a1 [CallSend [Byte.x01] None])) [Byte.x02] None
    = (fst (run_adapter a1 [CallSend [Byte.x01] None]), [], PyOk tt).
Proof.
  exact (proj2 (proj2 (proj2 (closed_flag_monotone "board-7" (new_adapter "board-7")
    (CallRecv (RecvRaise (WebSocketDisconnect 1000))) [] [CallSend [Byte.x01] None]
    [Byte.x02] None))) eq_refl).
Defined.

(** Claim C3: [send] on an adapter marked closed transmits nothing and
    returns normally; otherwise it makes exactly one [send_bytes] call
    with the message, whose own outcome is the result.  The adapter is
    unchanged either way. *)
Theorem send_closed_noop (a : WebSocketAdapter) (data : bytes) (o : option PyExc) :
  send a data o =
    if _closed a then (a, [], PyOk tt) else (a, [WsSendBytes data], raise_opt o).
Proof. unfold send, raise_opt. destruct (_closed a); reflexivity. Qed.

(** Claim C4 (amended): the adapter has no [close] method; its only
    closed state is the [_closed] flag.  On an adapter with the flag set,
    [send] leaves the transport untouched, while [recv] and [__anext__]
    still call [receive_bytes] on it. *)
Theorem closed_adapter_still_receives (a : WebSocketAdapter) :
  _closed a = true ->
  (forall d o, adapter_step a (CallSend d o) = (a, [])) /\
  (forall o, adapter_step a (CallRecv o) = (a, [WsReceiveBytes])) /\
  (forall o, adapter_step a (CallAnext o) = (a, [WsReceiveBytes])).
Proof.
  intros Hc. split; [|split].
  - intros d o. simpl. unfold send. rewrite Hc. reflexivity.
  - intros [d|[]]; simpl; rewrite ?set_closed_id by exact Hc; reflexivity.
  - intros [d|[]]; simpl; rewrite ?set_closed_id by exact Hc;
      try destruct (is_Exception _); reflexivity.
Qed.

Lemma closed_adapter_still_receives_witness :
  adapter_step (set_closed (new_adapter "board-7")) (CallRecv (RecvData [Byte.x01]))
    = (set_closed (new_adapter "board-7"), [WsReceiveBytes]).
Proof.
  exact (proj1 (proj2 (closed_adapter_still_receives (set_closed (new_adapter "board-7"))
    eq_refl)) (RecvData [Byte.x01])).
Defined.

(** Claim C4 (counterexample): after a receive has observed the peer's
    disconnect and set [_closed], the adapter still uses the transport:
    the next [recv] calls [receive_bytes] again. *)
Lemma closed_adapter_uses_transport :
  run_adapter (new_adapter "board-7")
    [CallRecv (RecvRaise (WebSocketDisconnect 1000)); CallRecv (RecvData [Byte.x01])]
  = (set_closed (new_adapter "board-7"), [WsReceiveBytes; WsReceiveBytes]) /\
  _closed (set_closed (new_adapter "board-7")) = true.
Proof. split; reflexivity. Qed.

Lemma async_for_raised_not_exception (a : WebSocketAdapter) (outs : list RecvOutcome)
    (a' : WebSocketAdapter) (ds : list bytes) (e : PyExc) :
  async_for a outs = (a', ds, IterRaised e) -> is_Exception e = false.
Proof.
  revert a ds. induction outs as [|o outs IH]; intros a ds; simpl; [discriminate|].
  destruct o as [d|[]]; simpl;
    try (intros H; injection H as _ _ <-; reflexivity);
    try discriminate.
  destruct (async_for a outs) as [[a'' ds'] en] eqn:E. intros H.
  injection H as -> _ ->. exact (IH a ds' E).
Qed.

(** Claim C2 (amended): iterating the adapter ([async for]) yields the
    received messages; a peer disconnect ends the loop normally and sets
    [_closed]; any other [Exception] raised by the receive also ends the
    loop normally, leaving [_closed] as it was; only a [BaseException]
    that is not an [Exception] (such as a cancellation) escapes the loop. *)
Theorem async_for_ends (a : WebSocketAdapter) (o : RecvOutcome) (outs : list RecvOutcome) :
  async_for a (o :: outs) =
  (match o with
   | RecvData d => let '(a', ds, e) := async_for a outs in (a', d :: ds, e)
   | RecvRaise (WebSocketDisconnect _) => (set_closed a, [], IterStopped)
   | RecvRaise e => (a, [], if is_Exception e then IterStopped else IterRaised e)
   end) /\
  (forall a' ds e, async_for a (o :: outs) = (a', ds, IterRaised e) -> is_Exception e = false).
Proof.
  split; [|intros a' ds e; apply async_for_raised_not_exception].
  destruct o as [d|e]; simpl; [reflexivity|].
  destruct e; reflexivity.
Qed.

(** Claim C2 (counterexample): a receive failing with a [RuntimeError]
    ends the iteration normally, not with an error. *)
Lemma async_for_runtime_error_stops :
  async_for (new_adapter "board-7") [RecvRaise (RuntimeError "boom")]
    = (new_adapter "board-7", [], IterStopped).
Proof. reflexivity. Qed.

(* ------------------------------------------------------------------ *)
(** ** Room registry invariant *)

Module RegistryProofs.
Import RoomRegistry.

Lemma join_no_empty (r : string) (c : nat) (s : WebsocketServer) :
  no_empty_rooms s -> no_empty_rooms (join r c s).
Proof.
  intros Hinv r' m. simpl. rewrite lookup_insert_Some.
  intros [[Heq <-]|[_ H]]; [subst r'|exact (Hinv r' m H)].
  intros Hm. assert (Hin : c ∈ ({[c]} ∪ default ∅ (rooms s !! r) : gset nat)) by set_solver.
  rewrite Hm in Hin. set_solver.
Qed.

Lemma leave_no_empty (r : string) (c : nat) (s : WebsocketServer) :
  auto_clean_rooms s = true -> no_empty_rooms s -> no_empty_rooms (leave r c s).
Proof.
  intros Hac Hinv. unfold leave.
  destruct (rooms s !! r) as [m|] eqn:Hr; [|exact Hinv].
  rewrite Hac. simpl andb.
  destruct (bool_decide (m ∖ {[c]} = ∅)) eqn:Hb.
  - intros r' m'. simpl. rewrite lookup_delete_Some. intros [_ H]. exact (Hinv r' m' H).
  - apply bool_decide_eq_false in Hb.
    intros r' m'. simpl. rewrite lookup_insert_Some.
    intros [[_ <-]|[_ H]]; [exact Hb|exact (Hinv r' m' H)].
Qed.

Lemma reg_step_auto_clean (s : WebsocketServer) (op : RegOp) :
  auto_clean_rooms (reg_step s op) = auto_clean_rooms s.
Proof.
  destruct op as [r c|r c]; simpl; [reflexivity|].
  unfold leave. destruct (rooms s !! r); [|reflexivity].
  destruct (_ && _); reflexivity.
Qed.

Lemma run_ops_no_empty (ops : list RegOp) (s : WebsocketServer) :
  auto_clean_rooms s = true -> no_empty_rooms s -> no_empty_rooms (run_ops s ops).
Proof.
  revert s. induction ops as [|op ops IH]; intros s Hac Hinv; simpl; [exact Hinv|].
  apply IH.
  - rewrite reg_step_auto_clean. exact Hac.
  - destruct op; simpl; [apply join_no_empty, Hinv|apply leave_no_empty; assumption].
Qed.

(** Claim C8: the process-wide server is built with
    [auto_clean_rooms=True], and after any sequence of joins and leaves
    starting from it, no room of the registry has an empty member set. *)
Theorem registry_never_retains_empty_room (ops : list RegOp) :
  auto_clean_rooms websocket_server = true /\
  no_empty_rooms (run_ops websocket_server ops).
Proof.
  split; [reflexivity|].
  apply run_ops_no_empty; [reflexivity|].
  intros r m H. simpl in H. rewrite lookup_empty in H. discriminate H.
Qed.

End RegistryProofs.

(* ------------------------------------------------------------------ *)
(** ** routes/auth.py: execute_with_retry *)

Module Retry.

(** Exceptions of the database layer: SQLAlchemy's [OperationalError],
    any other [Exception], a [BaseException] that is not an [Exception]
    (a cancellation), and the [TypeError] of [raise None]. *)
Inductive DbExc :=
| OperationalError (msg : string)
| DbError (name : string)
| DbCancelled
| TypeError (msg : string).

Definition is_db_Exception (e : DbExc) : bool :=
  match e with
  | DbCancelled => false
  | _ => true
  end.

Inductive DbResult (A : Type) :=
| DbOk (a : A)
| DbErr (e : DbExc).
Arguments DbOk {A} a.
Arguments DbErr {A} e.

(** What [db.execute(query)], [asyncio.sleep(...)] and [db.rollback()]
    do at one attempt: [None] returns normally, [Some e] raises [e]. *)
Record Attempt := {
  att_execute : option DbExc;
  att_sleep : option DbExc;
  att_rollback : option DbExc;
}.

(** The awaited calls, in order. *)
Inductive DbEvent :=
| EvExecute
| EvSleep (secs : Z)
| EvRollback.

Section Loop.

Context {R : Type}.
(** What the query returns when [db.execute] succeeds. *)
Variable result : R.
(** The behaviour of the collaborators at each attempt index. *)
Variable env : nat -> Attempt.
Variable max_retries : Z.

(** The [for attempt in range(max_retries)] loop from [attempt] on, with
    [fuel] iterations left; [raise last_error] after the loop. *)
Fixpoint retry_loop (attempt fuel : nat) (last_error : option DbExc)
    : list DbEvent * DbResult R :=
  match fuel with
  | O =>
      ([], DbErr (match last_error with
                  | Some e => e
                  | None => TypeError "exceptions must derive from BaseException"
                  end))
  | S fuel' =>
      match att_execute (env attempt) with
      | None => ([EvExecute], DbOk result)
      | Some (OperationalError m) =>
          if Z.of_nat attempt <? max_retries - 1 then
            match att_sleep (env attempt) with
            | Some e => ([EvExecute; EvSleep (2 ^ Z.of_nat attempt)], DbErr e)
            | None =>
                let cont :=
                  let '(evs, r) := retry_loop (S attempt) fuel' (Some (OperationalError m)) in
                  (EvExecute :: EvSleep (2 ^ Z.of_nat attempt) :: EvRollback :: evs, r) in
                match att_rollback (env attempt) with
                | Some e =>
                    if is_db_Exception e then cont
                    else ([EvExecute; EvSleep (2 ^ Z.of_nat attempt); EvRollback], DbErr e)
                | None => cont
                end
            end
          else ([EvExecute], DbErr (OperationalError m))
      | Some e => ([EvExecute], DbErr e)
      end
  end.

Definition execute_with_retry : list DbEvent * DbResult R :=
  retry_loop 0 (Z.to_nat max_retries) None.

End Loop.

(** An attempt whose query fails with an [OperationalError] and whose
    back-off and rollback do not abort the loop. *)
Definition retried_failure (a : Attempt) (m : string) : Prop :=
  att_execute a = Some (OperationalError m) /\ att_sleep a = None /\
  match att_rollback a with None => True | Some e => is_db_Exception e = true end.

(** The calls made by [k] failed-and-retried attempts. *)
Definition backoff_events (k : nat) : list DbEvent :=
  List.flat_map (fun i => [EvExecute; EvSleep (2 ^ Z.of_nat i); EvRollback]) (seq 0 k).

Definition count_executes (evs : list DbEvent) : nat :=
  length (List.filter (fun ev => match ev with EvExecute => true | _ => false end) evs).

End Retry.

Module RetryProofs.
Import Retry.

Definition backoff_from (a k : nat) : list DbEvent :=
  List.flat_map (fun i => [EvExecute; EvSleep (2 ^ Z.of_nat i); EvRollback]) (seq a k).

Section Props.

Context {R : Type}.
Variable result : R.
Variable env : nat -> Attempt.
Variable max_retries : Z.

Lemma retry_prefix (k a f : nat) (le : option DbExc) :
  (k < f)%nat -> Z.of_nat (a + k) < max_retries ->
  (forall i, (i < k)%nat -> exists m, retried_failure (env (a + i)) m) ->
  exists le',
    retry_loop result env max_retries a f le =
      (backoff_from a k ++ fst (retry_loop result env max_retries (a + k) (f - k) le'),
       snd (retry_loop result env max_retries (a + k) (f - k) le')).
Proof.
  revert a f le. induction k as [|k IH]; intros a f le Hkf Hmax Hfail.
  - exists le. rewrite Nat.add_0_r, Nat.sub_0_r. simpl.
    destruct (retry_loop result env max_retries a f le); reflexivity.
  - destruct f as [|f]; [lia|].
    destruct (Hfail 0%nat ltac:(lia)) as [m [Hex [Hsl Hrb]]].
    rewrite Nat.add_0_r in Hex, Hsl, Hrb.
    destruct (IH (S a) f (Some (OperationalError m)) ltac:(lia) ltac:(lia)) as [le' Hle'].
    { intros i Hi. destruct (Hfail (S i) ltac:(lia)) as [m' Hm'].
      exists m'. replace (S a + i)%nat with (a + S i)%nat by lia. exact Hm'. }
    exists le'. simpl retry_loop at 1. rewrite Hex.
    replace (Z.of_nat a <? max_retries - 1) with true by lia.
    rewrite Hsl.
    destruct (att_rollback (env a)) as [e|] eqn:Hr; [rewrite Hrb|];
    rewrite Hle'; replace (a + S k)%nat with (S a + k)%nat by lia; reflexivity.
Qed.

Lemma retry_loop_bound (a f : nat) (le : option DbExc) :
  (count_executes (fst (retry_loop result env max_retries a f le)) <= f)%nat.
Proof.
  unfold count_executes.
  revert a le. induction f as [|f IH]; intros a le; simpl; [lia|].
  destruct (att_execute (env a)) as [[m| | |]|]; simpl; try lia.
  destruct (Z.of_nat a <? max_retries - 1); simpl; [|lia].
  destruct (att_sleep (env a)); simpl; [lia|].
  specialize (IH (S a) (Some (OperationalError m))).
  destruct (retry_loop result env max_retries (S a) f (Some (OperationalError m))) as [evs r].
  simpl in IH.
  destruct (att_rollback (env a)) as [e|]; [destruct (is_db_Exception e)|]; simpl; lia.
Qed.

(** [execute_with_retry] never calls [db.execute] more than
    [max_retries] times, whatever the session does. *)
Theorem execute_with_retry_bounded :
  (count_executes (fst (execute_with_retry result env max_retries)) <= Z.to_nat max_retries)%nat.
Proof. apply retry_loop_bound. Qed.

(** When the first [k] attempts fail with [OperationalError] and are
    retried and attempt [k] (within [max_retries]) succeeds, the query's
    result is returned after back-offs of 1, 2, 4, ... seconds, each
    followed by a rollback. *)
Theorem execute_with_retry_success (k : nat) :
  (k < Z.to_nat max_retries)%nat ->
  (forall i, (i < k)%nat -> exists m, retried_failure (env i) m) ->
  att_execute (env k) = None ->
  execute_with_retry result env max_retries = (backoff_events k ++ [EvExecute], DbOk result).
Proof.
  intros Hk Hfail Hok. unfold execute_with_retry.
  destruct (retry_prefix k 0 (Z.to_nat max_retries) None Hk ltac:(lia) Hfail) as [le' ->].
  simpl Nat.add. destruct (Z.to_nat max_retries - k)%nat as [|f] eqn:Hf; [lia|].
  simpl. rewrite Hok. reflexivity.
Qed.

(** An exception other than [OperationalError] is not retried: it is
    raised by the attempt that meets it, after the retries before it. *)
Theorem execute_with_retry_no_retry_on_other (k : nat) (e : DbExc) :
  (k < Z.to_nat max_retries)%nat ->
  (forall i, (i < k)%nat -> exists m, retried_failure (env i) m) ->
  att_execute (env k) = Some e -> (forall m, e <> OperationalError m) ->
  execute_with_retry result env max_retries = (backoff_events k ++ [EvExecute], DbErr e).
Proof.
  intros Hk Hfail He Hne. unfold execute_with_retry.
  destruct (retry_prefix k 0 (Z.to_nat max_retries) None Hk ltac:(lia) Hfail) as [le' ->].
  simpl Nat.add. destruct (Z.to_nat max_retries - k)%nat as [|f] eqn:Hf; [lia|].
  simpl. rewrite He. destruct e as [m| | |]; try reflexivity.
  exfalso. exact (Hne m eq_refl).
Qed.

(** When every one of the [max_retries >= 1] attempts fails with an
    [OperationalError], the last attempt's error is re-raised, after
    [max_retries] executions and [max_retries - 1] back-offs. *)
Theorem execute_with_retry_exhausted (msgs : nat -> string) :
  0 < max_retries ->
  (forall i, (i < Z.to_nat max_retries)%nat -> retried_failure (env i) (msgs i)) ->
  execute_with_retry result env max_retries =
    (backoff_events (Z.to_nat max_retries - 1) ++ [EvExecute],
     DbErr (OperationalError (msgs (Z.to_nat max_retries - 1)%nat))).
Proof.
  intros Hpos Hfail. unfold execute_with_retry.
  set (N := Z.to_nat max_retries).
  destruct (retry_prefix (N - 1) 0 N None ltac:(lia) ltac:(lia)) as [le' ->].
  { intros i Hi. exists (msgs i). apply Hfail. lia. }
  simpl Nat.add. replace (N - (N - 1))%nat with 1%nat by lia.
  destruct (Hfail (N - 1)%nat ltac:(lia)) as [Hex _].
  simpl. rewrite Hex. unfold N.
  rewrite (proj2 (Z.ltb_ge (Z.of_nat (Z.to_nat max_retries - 1)) (max_retries - 1))) by lia.
  reflexivity.
Qed.

(** With [max_retries <= 0] the loop body never runs: no query is
    executed and [raise last_error] raises [None], a [TypeError]. *)
Theorem execute_with_retry_nonpositive :
  max_retries <= 0 ->
  execute_with_retry result env max_retries =
    ([], DbErr (TypeError "exceptions must derive from BaseException")).
Proof.
  intros H. unfold execute_with_retry.
  replace (Z.to_nat max_retries) with 0%nat by lia. reflexivity.
Qed.

End Props.
End RetryProofs.

(* ------------------------------------------------------------------ *)
(** ** routes/auth.py: refresh_tokens *)

Module RefreshRoute.
Import Retry.

(** Outcome of a route handler: a response, an [HTTPException], or an
    exception of another kind that escapes the handler. *)
Inductive RouteResult (A : Type) :=
| ROk (a : A)
| RHttp (status_code : Z) (detail : string)
| RPyErr (e : PyExc)
| RDbErr (e : DbExc).
Arguments ROk {A} a.
Arguments RHttp {A} status_code detail.
Arguments RPyErr {A} e.
Arguments RDbErr {A} e.

Section Refresh.

Variable jwt_encode : Payload -> string -> string -> string.
Variable jwt_decode : string -> string -> list string -> Z -> DecodeResult.
Variable settings : Settings.
Variable now : Z.
(** The query [select(User).where(User.id == user_id)] followed by
    [scalar_one_or_none()]: the [str(user.id)] of the matching user. *)
Variable find_user : option JVal -> option string.
(** The session's behaviour at each attempt of [execute_with_retry]. *)
Variable db_env : nat -> Attempt.

(** [refresh_tokens(request)]: the response is the pair
    [(access_token, refresh_token)] of the [TokenResponse]. *)
Definition refresh_tokens (refresh_token : string)
    : list DbEvent * RouteResult (string * string) :=
  match verify_token jwt_decode settings refresh_token "refresh" now with
  | PyErr e => ([], RPyErr e)
  | PyOk user_id =>
      if negb (user_truthy user_id) then
        ([], RHttp 401 "Invalid or expired refresh token")
      else
        let '(evs, r) := execute_with_retry (find_user user_id) db_env 3 in
        match r with
        | DbOk None => (evs, RHttp 401 "User not found")
        | DbOk (Some uid) =>
            (evs, ROk (create_access_token jwt_encode settings uid now,
                       create_refresh_token jwt_encode settings uid now))
        | DbErr (OperationalError _) =>
            (evs, RHttp 503 "Database temporarily unavailable. Please try again.")
        | DbErr e => (evs, RDbErr e)
        end
  end.

End Refresh.

End RefreshRoute.

Module RefreshProofs.
Import Retry RetryProofs RefreshRoute.

Section Props.

Variable jwt_encode : Payload -> string -> string -> string.
Variable jwt_decode : string -> string -> list string -> Z -> DecodeResult.
Variable settings : Settings.
Variable find_user : option JVal -> option string.
Variable db_env : nat -> Attempt.

Lemma verify_issued_refresh (user_id : string) (t0 t1 : Z) :
  jwt_roundtrip jwt_encode jwt_decode ->
  t1 <= t0 + refresh_token_expire_days settings * 86400 ->
  verify_token jwt_decode settings (create_refresh_token jwt_encode settings user_id t0) "refresh" t1
    = PyOk (Some (JStr user_id)).
Proof.
  intros Hrt Hle. unfold verify_token, create_refresh_token.
  rewrite (Hrt _ _ _ _ (t0 + refresh_token_expire_days settings * 86400)); [|reflexivity|exact Hle].
  reflexivity.
Qed.

Lemma verify_issued_access (user_id : string) (t0 t1 : Z) :
  jwt_roundtrip jwt_encode jwt_decode ->
  t1 <= t0 + access_token_expire_minutes settings * 60 ->
  verify_token jwt_decode settings (create_access_token jwt_encode settings user_id t0) "access" t1
    = PyOk (Some (JStr user_id)).
Proof.
  intros Hrt Hle. unfold verify_token, create_access_token.
  rewrite (Hrt _ _ _ _ (t0 + access_token_expire_minutes settings * 60)); [|reflexivity|exact Hle].
  reflexivity.
Qed.

Lemma user_truthy_str (s : string) : s <> "" -> user_truthy (Some (JStr s)) = true.
Proof. intros H. simpl. apply String.eqb_neq in H. now rewrite H. Qed.

(** An unexpired access token is no refresh token: [refresh_tokens]
    answers 401 without querying the database. *)
Theorem refresh_rejects_access_token (user_id : string) (t0 t1 : Z) :
  jwt_roundtrip jwt_encode jwt_decode ->
  t1 <= t0 + access_token_expire_minutes settings * 60 ->
  refresh_tokens jwt_encode jwt_decode settings t1 find_user db_env
    (create_access_token jwt_encode settings user_id t0)
  = ([], RHttp 401 "Invalid or expired refresh token").
Proof.
  intros Hrt Hle. unfold refresh_tokens, verify_token, create_access_token.
  rewrite (Hrt _ _ _ _ (t0 + access_token_expire_minutes settings * 60)); [|reflexivity|exact Hle].
  reflexivity.
Qed.

(** Refreshing an unexpired refresh token of an existing user, with the
    database answering at once, issues a new pair of tokens for that
    user: the new access token verifies to the user id for its whole
    lifetime, and so does the new refresh token. *)
Theorem refresh_issues_tokens_for_user (user_id : string) (t0 t1 : Z) :
  jwt_roundtrip jwt_encode jwt_decode ->
  user_id <> "" ->
  find_user (Some (JStr user_id)) = Some user_id ->
  att_execute (db_env 0) = None ->
  t1 <= t0 + refresh_token_expire_days settings * 86400 ->
  exists access refresh,
    refresh_tokens jwt_encode jwt_decode settings t1 find_user db_env
      (create_refresh_token jwt_encode settings user_id t0)
      = ([EvExecute], ROk (access, refresh)) /\
    (forall t2, t2 <= t1 + access_token_expire_minutes settings * 60 ->
       verify_token jwt_decode settings access "access" t2 = PyOk (Some (JStr user_id))) /\
    (forall t2, t2 <= t1 + refresh_token_expire_days settings * 86400 ->
       verify_token jwt_decode settings refresh "refresh" t2 = PyOk (Some (JStr user_id))).
Proof.
  intros Hrt Hne Hfind Hok Hle.
  exists (create_access_token jwt_encode settings user_id t1),
         (create_refresh_token jwt_encode settings user_id t1).
  split; [|split].
  - unfold refresh_tokens. rewrite (verify_issued_refresh user_id t0 t1 Hrt Hle).
    rewrite (user_truthy_str user_id Hne). simpl negb. cbv iota.
    rewrite Hfind. unfold execute_with_retry. simpl. rewrite Hok. reflexivity.
  - intros t2 H2. exact (verify_issued_access user_id t1 t2 Hrt H2).
  - intros t2 H2. exact (verify_issued_refresh user_id t1 t2 Hrt H2).
Qed.

(** When all three database attempts fail with [OperationalError],
    [refresh_tokens] answers 503 after three queries and two back-offs. *)
Theorem refresh_db_unavailable (user_id : string) (t0 t1 : Z) (msgs : nat -> string) :
  jwt_roundtrip jwt_encode jwt_decode ->
  user_id <> "" ->
  t1 <= t0 + refresh_token_expire_days settings * 86400 ->
  (forall i, (i < 3)%nat -> retried_failure (db_env i) (msgs i)) ->
  refresh_tokens jwt_encode jwt_decode settings t1 find_user db_env
    (create_refresh_token jwt_encode settings user_id t0)
  = (backoff_events 2 ++ [EvExecute],
     RHttp 503 "Database temporarily unavailable. Please try again.").
Proof.
  intros Hrt Hne Hle Hfail.
  unfold refresh_tokens. rewrite (verify_issued_refresh user_id t0 t1 Hrt Hle).
  rewrite (user_truthy_str user_id Hne). simpl negb. cbv iota.
  unfold execute_with_retry. change (Z.to_nat 3) with 3%nat.
  destruct (retry_prefix (find_user (Some (JStr user_id))) db_env 3 2%nat 0%nat 3%nat None
              ltac:(lia) ltac:(lia)) as [le' ->].
  { intros i Hi. exists (msgs i). apply Hfail. lia. }
  destruct (Hfail 2%nat ltac:(lia)) as [Hex _].
  simpl. rewrite Hex. reflexivity.
Qed.

End Props.
End RefreshProofs.

(* ------------------------------------------------------------------ *)
(** ** models/board.py, models/invite.py, routes/boards.py, routes/sharing.py *)

Module Boards.

(** Outcome of a route: a value, an [HTTPException], or another
    exception (named by its class) escaping the handler. *)
Inductive HResult (A : Type) :=
| HOk (a : A)
| HErr (status_code : Z) (detail : string)
| HFail (exc : string).
Arguments HOk {A} a.
Arguments HErr {A} status_code detail.
Arguments HFail {A} exc.

Definition hbind {A B} (r : HResult A) (f : A -> HResult B) : HResult B :=
  match r with
  | HOk a => f a
  | HErr c d => HErr c d
  | HFail x => HFail x
  end.

(** A [boards] row; ids are the canonical text of their UUIDs, times
    are seconds. *)
Record Board := {
  board_name : string;
  owner_id : string;
  thumbnail_url : option string;
  is_public : bool;
  deleted_at : option Z;
  created_at : Z;
  updated_at : Z;
}.

(** A [board_members] row, keyed by [(board_id, user_id)]. *)
Record BoardMember := {
  role : string;
  invited_at : Z;
}.

(** A [board_invites] row. *)
Record BoardInvite := {
  inv_board_id : string;
  inv_role : string;
  inv_created_by : string;
  inv_expires_at : option Z;
  inv_max_uses : option Z;
  inv_use_count : Z;
  inv_created_at : Z;
}.

Record Db := {
  boards : gmap string Board;
  board_members : gmap (string * string) BoardMember;
  board_invites : gmap string BoardInvite;
}.

Definition set_boards (db : Db) (bs : gmap string Board) : Db :=
  {| boards := bs; board_members := board_members db; board_invites := board_invites db |}.
Definition set_members (db : Db) (ms : gmap (string * string) BoardMember) : Db :=
  {| boards := boards db; board_members := ms; board_invites := board_invites db |}.
Definition set_invites (db : Db) (is : gmap string BoardInvite) : Db :=
  {| boards := boards db; board_members := board_members db; board_invites := is |}.

(** Column limits: [String(255)] for names (strings here are ASCII, one
    byte per character), a 32-bit [Integer]. *)
Definition fits_varchar255 (s : string) : bool := (String.length s <=? 255)%nat.
Definition fits_int32 (z : Z) : bool := (-2147483648 <=? z) && (z <=? 2147483647).

(** The range of Python's [datetime] (years 1 to 9999), in seconds. *)
Definition datetime_ok (t : Z) : bool := (-62135596800 <=? t) && (t <=? 253402300799).

Section Routes.

(** How the database reads a UUID given as text: its canonical text, or
    [None] when it is no UUID (the query then raises [DataError]). *)
Variable canon : string -> option string.

(** [select(Board).where(Board.id == board_id, Board.deleted_at.is_(None))]
    with [scalar_one_or_none()]. *)
Definition select_live_board (db : Db) (board_id : string) : HResult (option (string * Board)) :=
  match canon board_id with
  | None => HFail "DataError"
  | Some k =>
      HOk (match boards db !! k with
           | Some b => match deleted_at b with None => Some (k, b) | Some _ => None end
           | None => None
           end)
  end.

(** [any(m.user_id == user.id for m in board.members)] *)
Definition is_member (db : Db) (k uid : string) : bool :=
  bool_decide (is_Some (board_members db !! (k, uid))).

(** boards.py [get_board_with_access] *)
Definition get_board_with_access (db : Db) (board_id uid : string) (require_owner : bool)
    : HResult (string * Board) :=
  hbind (select_live_board db board_id) (fun ob =>
  match ob with
  | None => HErr 404 "Board not found"
  | Some (k, b) =>
      let owner := String.eqb (owner_id b) uid in
      let member := is_member db k uid in
      if require_owner && negb owner then
        HErr 403 "Only the owner can perform this action"
      else if negb owner && negb member && negb (is_public b) then
        HErr 403 "You don't have access to this board"
      else HOk (k, b)
  end).

(** comments.py [get_board_with_access] *)
Definition comments_get_board_with_access (db : Db) (board_id uid : string)
    : HResult (string * Board) :=
  hbind (select_live_board db board_id) (fun ob =>
  match ob with
  | None => HErr 404 "Board not found"
  | Some (k, b) =>
      let owner := String.eqb (owner_id b) uid in
      let member := is_member db k uid in
      if negb owner && negb member && negb (is_public b) then
        HErr 403 "You don't have access to this board"
      else HOk (k, b)
  end).

(** sharing.py [get_board_as_owner] *)
Definition get_board_as_owner (db : Db) (board_id uid : string) : HResult (string * Board) :=
  hbind (select_live_board db board_id) (fun ob =>
  match ob with
  | None => HErr 404 "Board not found"
  | Some (k, b) =>
      if negb (String.eqb (owner_id b) uid) then
        HErr 403 "Only the owner can manage sharing"
      else HOk (k, b)
  end).

(** sharing.py [list_members]: the access check (the rows returned are
    the board's members). *)
Definition list_members (db : Db) (board_id uid : string)
    : HResult (list ((string * string) * BoardMember)) :=
  hbind (select_live_board db board_id) (fun ob =>
  match ob with
  | None => HErr 404 "Board not found"
  | Some (k, b) =>
      let owner := String.eqb (owner_id b) uid in
      let member := is_member db k uid in
      if negb owner && negb member then
        HErr 403 "You don't have access to this board"
      else HOk (map_to_list (filter (fun '(key, _) => key.1 = k) (board_members db)))
  end).

(** boards.py [create_board]; [new_id] is the [uuid4] default. *)
Definition create_board (db : Db) (uid name new_id : string) (now : Z)
    : HResult (Db * Board) :=
  if negb (fits_varchar255 name) then HFail "DataError" else
  let b := {| board_name := name; owner_id := uid; thumbnail_url := None;
              is_public := false; deleted_at := None;
              created_at := now; updated_at := now |} in
  HOk (set_members (set_boards db (<[new_id := b]> (boards db)))
         (<[(new_id, uid) := {| role := "owner"; invited_at := now |}]> (board_members db)), b).

(** boards.py [update_board] *)
Definition update_board (db : Db) (board_id uid : string)
    (name : option string) (public : option bool) (now : Z) : HResult (Db * Board) :=
  hbind (get_board_with_access db board_id uid true) (fun '(k, b) =>
  let name' := match name with Some n => n | None => board_name b end in
  let public' := match public with Some p => p | None => is_public b end in
  if negb (fits_varchar255 name') then HFail "DataError" else
  let b' := {| board_name := name'; owner_id := owner_id b; thumbnail_url := thumbnail_url b;
               is_public := public'; deleted_at := deleted_at b;
               created_at := created_at b; updated_at := now |} in
  HOk (set_boards db (<[k := b']> (boards db)), b')).

(** boards.py [delete_board]: a soft delete; the column's
    [onupdate=datetime.utcnow] also sets [updated_at]. *)
Definition delete_board (db : Db) (board_id uid : string) (now : Z) : HResult Db :=
  hbind (get_board_with_access db board_id uid true) (fun '(k, b) =>
  let b' := {| board_name := board_name b; owner_id := owner_id b; thumbnail_url := thumbnail_url b;
               is_public := is_public b; deleted_at := Some now;
               created_at := created_at b; updated_at := now |} in
  HOk (set_boards db (<[k := b']> (boards db)))).

(** boards.py [duplicate_board]; [new_id] is the [uuid4] default. *)
Definition duplicate_board (db : Db) (board_id uid new_id : string) (now : Z)
    : HResult (Db * Board) :=
  hbind (get_board_with_access db board_id uid false) (fun '(_, original) =>
  let name := board_name original +:+ " (Copy)" in
  if negb (fits_varchar255 name) then HFail "DataError" else
  let b := {| board_name := name; owner_id := uid; thumbnail_url := None;
              is_public := false; deleted_at := None;
              created_at := now; updated_at := now |} in
  HOk (set_members (set_boards db (<[new_id := b]> (boards db)))
         (<[(new_id, uid) := {| role := "owner"; invited_at := now |}]> (board_members db)), b)).

(** sharing.py [create_invite]; [new_id] is the [uuid4] default. *)
Definition create_invite (db : Db) (board_id uid r : string)
    (expires_in_days max_uses : option Z) (new_id : string) (now : Z)
    : HResult (Db * BoardInvite) :=
  hbind (get_board_as_owner db board_id uid) (fun '(k, _) =>
  if negb (String.eqb r "editor" || String.eqb r "viewer") then
    HErr 400 "Role must be 'editor' or 'viewer'" else
  let expires :=
    match expires_in_days with
    | Some d =>
        if d =? 0 then HOk None
        else if (Z.abs d <=? 999999999) && datetime_ok (now + d * 86400)
             then HOk (Some (now + d * 86400))
             else HFail "OverflowError"
    | None => HOk None
    end in
  hbind expires (fun expires_at =>
  if negb (match max_uses with Some m => fits_int32 m | None => true end) then
    HFail "DataError" else
  let inv := {| inv_board_id := k; inv_role := r; inv_created_by := uid;
                inv_expires_at := expires_at; inv_max_uses := max_uses;
                inv_use_count := 0; inv_created_at := now |} in
  HOk (set_invites db (<[new_id := inv]> (board_invites db)), inv))).

(** [invite.expires_at and invite.expires_at < datetime.utcnow()] *)
Definition invite_expired (inv : BoardInvite) (now : Z) : bool :=
  match inv_expires_at inv with Some e => e <? now | None => false end.

(** [invite.max_uses and invite.use_count >= invite.max_uses] *)
Definition uses_exhausted (inv : BoardInvite) : bool :=
  match inv_max_uses inv with
  | Some m => negb (m =? 0) && (m <=? inv_use_count inv)
  | None => false
  end.

Definition already_member_msg : string := "You are already a member of this board".

(** sharing.py [accept_invite]: the message and the board id.  The
    [IntegrityError] branch is not reachable without a concurrent insert. *)
Definition accept_invite (db : Db) (invite_id uid : string) (now : Z)
    : HResult (Db * (string * string)) :=
  match canon invite_id with
  | None => HFail "DataError"
  | Some i =>
  match board_invites db !! i with
  | None => HErr 404 "Invite not found"
  | Some inv =>
      if invite_expired inv now then
        HErr 400 "This invite has expired"
      else if uses_exhausted inv then
        HErr 400 "This invite has reached its maximum uses"
      else match boards db !! inv_board_id inv with
      | None => HFail "AttributeError"
      | Some b =>
          if match deleted_at b with Some _ => true | None => false end then
            HErr 404 "Board no longer exists"
          else match board_members db !! (inv_board_id inv, uid) with
          | Some _ => HOk (db, (already_member_msg, inv_board_id inv))
          | None =>
              if negb (fits_int32 (inv_use_count inv + 1)) then HFail "DataError" else
              let inv' := {| inv_board_id := inv_board_id inv; inv_role := inv_role inv;
                             inv_created_by := inv_created_by inv;
                             inv_expires_at := inv_expires_at inv;
                             inv_max_uses := inv_max_uses inv;
                             inv_use_count := inv_use_count inv + 1;
                             inv_created_at := inv_created_at inv |} in
              HOk (set_invites
                     (set_members db (<[(inv_board_id inv, uid) :=
                        {| role := inv_role inv; invited_at := now |}]> (board_members db)))
                     (<[i := inv']> (board_invites db)),
                   ("Successfully joined the board", inv_board_id inv))
          end
      end
  end
  end.

(** sharing.py [update_member_role] *)
Definition update_member_role (db : Db) (board_id uid user_id r : string)
    : HResult (Db * BoardMember) :=
  hbind (get_board_as_owner db board_id uid) (fun '(k, b) =>
  if negb (String.eqb r "editor" || String.eqb r "viewer") then
    HErr 400 "Role must be 'editor' or 'viewer'"
  else if String.eqb (owner_id b) user_id then
    HErr 400 "Cannot change the owner's role"
  else match canon user_id with
  | None => HFail "DataError"
  | Some t =>
      match board_members db !! (k, t) with
      | None => HErr 404 "Member not found"
      | Some m =>
          let m' := {| role := r; invited_at := invited_at m |} in
          HOk (set_members db (<[(k, t) := m']> (board_members db)), m')
      end
  end).

(** sharing.py [remove_member] *)
Definition remove_member (db : Db) (board_id uid user_id : string) : HResult Db :=
  hbind (get_board_as_owner db board_id uid) (fun '(k, b) =>
  if String.eqb (owner_id b) user_id then HErr 400 "Cannot remove the owner"
  else match canon user_id with
  | None => HFail "DataError"
  | Some t =>
      match board_members db !! (k, t) with
      | None => HErr 404 "Member not found"
      | Some _ => HOk (set_members db (delete (k, t) (board_members db)))
      end
  end).

End Routes.

End Boards.

Module BoardsProofs.
Import Boards.

Section Props.

Variable canon : string -> option string.

Lemma hbind_ok {A B} (r : HResult A) (f : A -> HResult B) (x : B) :
  hbind r f = HOk x -> exists a, r = HOk a /\ f a = HOk x.
Proof. destruct r; simpl; try discriminate. eauto. Qed.

Lemma is_member_spec db k u :
  is_member db k u = true <-> is_Some (board_members db !! (k, u)).
Proof. unfold is_member. apply bool_decide_eq_true. Qed.

Lemma gbwa_ok db bid uid ro k b :
  get_board_with_access canon db bid uid ro = HOk (k, b) <->
  canon bid = Some k /\ boards db !! k = Some b /\ deleted_at b = None /\
  (ro = true -> owner_id b = uid) /\
  (owner_id b = uid \/ is_member db k uid = true \/ is_public b = true).
Proof.
  unfold get_board_with_access, select_live_board. split.
  - destruct (canon bid) as [k0|]; simpl; [|discriminate].
    destruct (boards db !! k0) as [b0|] eqn:Hb; simpl; [|discriminate].
    destruct (deleted_at b0) eqn:Hd; simpl; [discriminate|].
    destruct (String.eqb_spec (owner_id b0) uid), ro, (is_member db k0 uid) eqn:Hm,
      (is_public b0) eqn:Hp; simpl; intros H; try discriminate;
      inversion H; subst; clear H; repeat split; auto; congruence.
  - intros (Hk&Hb&Hd&Hro&Hacc). rewrite Hk. simpl. rewrite Hb, Hd. simpl.
    destruct (String.eqb_spec (owner_id b) uid), ro; simpl;
      [reflexivity|reflexivity|exfalso; auto|].
    destruct Hacc as [Ho|[Hm|Hp]]; [contradiction| rewrite Hm; reflexivity|].
    rewrite Hp. destruct (is_member db k uid); reflexivity.
Qed.

(** boards.py [get_board_with_access] returns a board exactly when the
    id names a live board and the user owns it, or (when ownership is
    not required) owns it, is a member or the board is public. *)
Theorem get_board_with_access_ok_iff db bid uid ro k b :
  get_board_with_access canon db bid uid ro = HOk (k, b) <->
  canon bid = Some k /\ boards db !! k = Some b /\ deleted_at b = None /\
  (if ro then owner_id b = uid
   else owner_id b = uid \/ is_Some (board_members db !! (k, uid)) \/ is_public b = true).
Proof.
  rewrite gbwa_ok, is_member_spec.
  destruct ro; split.
  - intros (H1&H2&H3&H4&_). repeat split; auto.
  - intros (H1&H2&H3&H4). repeat split; auto.
  - intros (H1&H2&H3&_&H5). repeat split; auto.
  - intros (H1&H2&H3&H4). repeat split; auto; discriminate.
Qed.

(** The access check of comments.py is the one of boards.py without the
    owner requirement. *)
Theorem comments_access_is_boards_access db bid uid :
  comments_get_board_with_access canon db bid uid = get_board_with_access canon db bid uid false.
Proof.
  unfold comments_get_board_with_access, get_board_with_access.
  destruct (select_live_board canon db bid) as [[[k b]|]| |]; reflexivity.
Qed.

(** A public board opens to a user who is neither owner nor member, but
    its member list does not. *)
Theorem public_board_hides_members db bid uid k b :
  canon bid = Some k -> boards db !! k = Some b -> deleted_at b = None ->
  is_public b = true -> owner_id b <> uid -> board_members db !! (k, uid) = None ->
  get_board_with_access canon db bid uid false = HOk (k, b) /\
  list_members canon db bid uid = HErr 403 "You don't have access to this board".
Proof.
  intros Hc Hb Hd Hp Ho Hm. unfold get_board_with_access, list_members, select_live_board.
  rewrite Hc, Hb, Hd. simpl.
  assert (Hnm : is_member db k uid = false).
  { unfold is_member. rewrite Hm. reflexivity. }
  rewrite Hnm, Hp. destruct (String.eqb_spec (owner_id b) uid); [contradiction|].
  split; reflexivity.
Qed.

(** After [delete_board] succeeds, the board is "not found" for every
    caller and every spelling of its id, in boards.py, comments.py and
    sharing.py alike. *)
Theorem deleted_board_not_found db bid uid now db' bid' u ro :
  delete_board canon db bid uid now = HOk db' -> canon bid' = canon bid ->
  get_board_with_access canon db' bid' u ro = HErr 404 "Board not found" /\
  comments_get_board_with_access canon db' bid' u = HErr 404 "Board not found" /\
  get_board_as_owner canon db' bid' u = HErr 404 "Board not found" /\
  list_members canon db' bid' u = HErr 404 "Board not found".
Proof.
  unfold delete_board. intros H Hc.
  apply hbind_ok in H as [[k b] [Hg Hd]]. inversion Hd; subst; clear Hd.
  apply gbwa_ok in Hg as (Hk&_).
  unfold get_board_with_access, comments_get_board_with_access, get_board_as_owner,
    list_members, select_live_board.
  rewrite Hc, Hk. cbn [hbind boards set_boards]. rewrite lookup_insert_eq. simpl.
  repeat split; reflexivity.
Qed.

(** [update_board] changes only the fields it is given: a field left
    [None] keeps its value, the owner never changes and [updated_at]
    becomes the time of the call. *)
Theorem update_board_keeps_unset db bid uid name public now db' b' :
  update_board canon db bid uid name public now = HOk (db', b') ->
  exists k b,
    canon bid = Some k /\ boards db !! k = Some b /\ owner_id b = uid /\
    boards db' = <[k := b']> (boards db) /\
    board_members db' = board_members db /\ board_invites db' = board_invites db /\
    owner_id b' = owner_id b /\ updated_at b' = now /\ created_at b' = created_at b /\
    (name = None -> board_name b' = board_name b) /\
    (public = None -> is_public b' = is_public b).
Proof.
  unfold update_board. intros H.
  apply hbind_ok in H as [[k b] [Hg Hu]]. apply gbwa_ok in Hg as (Hk&Hb&_&Ho&_).
  simpl in Hu.
  destruct (fits_varchar255 _); simpl in Hu; [|discriminate].
  inversion Hu; subst; clear Hu.
  exists k, b. simpl. repeat split; auto; intros ->; reflexivity.
Qed.

Lemma string_length_app (s1 s2 : string) :
  String.length (s1 +:+ s2) = (String.length s1 + String.length s2)%nat.
Proof. induction s1; simpl; auto. Qed.


(** A board whose name is longer than 248 characters cannot be
    duplicated: "<name> (Copy)" overflows the [String(255)] column and the
    database raises. *)
Theorem duplicate_board_name_overflow db bid uid new_id now k b :
  get_board_with_access canon db bid uid false = HOk (k, b) ->
  (248 < String.length (board_name b))%nat ->
  duplicate_board canon db bid uid new_id now = HFail "DataError".
Proof.
  intros Hg Hl. unfold duplicate_board. rewrite Hg. simpl.
  unfold fits_varchar255. rewrite string_length_app. simpl.
  rewrite (proj2 (Nat.leb_gt _ _)) by lia. reflexivity.
Qed.

(** A created invite has a valid role, no uses yet, the caller as its
    creator and the given [max_uses]; it has no expiry exactly when
    [expires_in_days] is [None] or 0, and the caller owns the live board. *)
Theorem create_invite_fields db bid uid r days max_uses new_id now db' inv :
  create_invite canon db bid uid r days max_uses new_id now = HOk (db', inv) ->
  (r = "editor" \/ r = "viewer") /\ inv_role inv = r /\
  inv_use_count inv = 0 /\ inv_created_by inv = uid /\ inv_max_uses inv = max_uses /\
  (inv_expires_at inv = None <-> days = None \/ days = Some 0) /\
  (forall d, days = Some d -> d <> 0 -> inv_expires_at inv = Some (now + d * 86400)) /\
  board_invites db' = <[new_id := inv]> (board_invites db) /\
  (exists k b, canon bid = Some k /\ inv_board_id inv = k /\ boards db !! k = Some b /\
               deleted_at b = None /\ owner_id b = uid).
Proof.
  unfold create_invite, get_board_as_owner, select_live_board. intros H.
  destruct (canon bid) as [k|] eqn:Hc; simpl in H; [|discriminate].
  destruct (boards db !! k) as [b|] eqn:Hb; simpl in H; [|discriminate].
  destruct (deleted_at b) eqn:Hd; simpl in H; [discriminate|].
  destruct (String.eqb_spec (owner_id b) uid); simpl in H; [|discriminate].
  destruct (String.eqb_spec r "editor"), (String.eqb_spec r "viewer");
    simpl in H; try discriminate;
  (destruct days as [d|]; simpl in H;
   [destruct (Z.eqb_spec d 0); simpl in H;
    [|destruct ((Z.abs d <=? 999999999) && datetime_ok (now + d * 86400)); simpl in H;
      [|discriminate]]|]);
  (destruct (match max_uses with Some m => fits_int32 m | None => true end);
   simpl in H; [|discriminate]);
  inversion H; subst; clear H; simpl;
  repeat match goal with
  | |- _ /\ _ => split
  | |- _ <-> _ => split
  | |- exists _, _ => eexists
  | |- _ -> _ => intro
  | Hx : _ \/ _ |- _ => destruct Hx
  | Hx : Some _ = Some _ |- _ => injection Hx as Hx
  end; subst; eauto; try congruence; try (left; congruence); try (right; congruence).
Qed.

Definition joined_msg : string := "Successfully joined the board".

Lemma accept_ok_cases db iid uid now db' msg bid :
  accept_invite canon db iid uid now = HOk (db', (msg, bid)) ->
  exists i inv b,
    canon iid = Some i /\ board_invites db !! i = Some inv /\
    invite_expired inv now = false /\ uses_exhausted inv = false /\
    boards db !! inv_board_id inv = Some b /\ deleted_at b = None /\ bid = inv_board_id inv /\
    ((is_Some (board_members db !! (bid, uid)) /\ db' = db /\ msg = already_member_msg) \/
     (board_members db !! (bid, uid) = None /\ fits_int32 (inv_use_count inv + 1) = true /\
      msg = joined_msg /\
      db' = set_invites
              (set_members db (<[(bid, uid) := {| role := inv_role inv; invited_at := now |}]>
                                 (board_members db)))
              (<[i := {| inv_board_id := inv_board_id inv; inv_role := inv_role inv;
                         inv_created_by := inv_created_by inv;
                         inv_expires_at := inv_expires_at inv;
                         inv_max_uses := inv_max_uses inv;
                         inv_use_count := inv_use_count inv + 1;
                         inv_created_at := inv_created_at inv |}]> (board_invites db)))).
Proof.
  unfold accept_invite. intros H.
  destruct (canon iid) as [i|]; [|discriminate].
  destruct (board_invites db !! i) as [inv|] eqn:Hi; [|discriminate].
  destruct (invite_expired inv now) eqn:He; [discriminate|].
  destruct (uses_exhausted inv) eqn:Hx; [discriminate|].
  destruct (boards db !! inv_board_id inv) as [b|] eqn:Hb; [|discriminate].
  destruct (deleted_at b) eqn:Hd; [discriminate|].
  exists i, inv, b. repeat split; auto.
  - destruct (board_members db !! (inv_board_id inv, uid)) as [m|] eqn:Hm.
    + inversion H; subst. reflexivity.
    + destruct (fits_int32 _); [|discriminate]. inversion H; subst. reflexivity.
  - destruct (board_members db !! (inv_board_id inv, uid)) as [m|] eqn:Hm.
    + inversion H; subst. left. repeat split; eauto.
    + destruct (fits_int32 _) eqn:Hf; [|discriminate]. inversion H; subst.
      right. repeat split; auto.
Qed.

(** A successful [accept_invite] either finds the user already a member
    and changes nothing, or adds them with the invite's role and counts
    one more use of the invite; either way the invite was valid and its
    board live. *)
Theorem accept_invite_effect db iid uid now db' msg bid :
  accept_invite canon db iid uid now = HOk (db', (msg, bid)) ->
  exists i inv,
    canon iid = Some i /\ board_invites db !! i = Some inv /\ bid = inv_board_id inv /\
    invite_expired inv now = false /\ uses_exhausted inv = false /\
    ((msg = already_member_msg /\ db' = db) \/
     (msg = joined_msg /\ board_members db !! (bid, uid) = None /\
      board_members db' = <[(bid, uid) := {| role := inv_role inv; invited_at := now |}]>
                             (board_members db) /\
      boards db' = boards db /\
      exists inv', board_invites db' = <[i := inv']> (board_invites db) /\
                   inv_use_count inv' = inv_use_count inv + 1 /\
                   inv_role inv' = inv_role inv /\ inv_board_id inv' = inv_board_id inv /\
                   inv_max_uses inv' = inv_max_uses inv /\
                   inv_expires_at inv' = inv_expires_at inv)).
Proof.
  intros H. apply accept_ok_cases in H as (i&inv&b&Hc&Hi&He&Hx&Hb&Hd&->&Hcase).
  exists i, inv. repeat split; auto.
  destruct Hcase as [(_&->&->)|(Hm&_&->&->)]; [left; auto|right].
  repeat split; auto. eexists. repeat split; reflexivity.
Qed.

(** Accepting the same invite again at the same time reports "already a
    member" and changes nothing, unless the first acceptance used up the
    invite's last use: the use check comes before the membership check,
    so the repeat is refused with 400. *)
Theorem accept_invite_repeat db iid uid now db' msg bid :
  accept_invite canon db iid uid now = HOk (db', (msg, bid)) ->
  exists i inv',
    canon iid = Some i /\ board_invites db' !! i = Some inv' /\
    accept_invite canon db' iid uid now =
      if uses_exhausted inv' then HErr 400 "This invite has reached its maximum uses"
      else HOk (db', (already_member_msg, bid)).
Proof.
  intros H. apply accept_ok_cases in H as (i&inv&b&Hc&Hi&He&Hx&Hb&Hd&->&Hcase).
  destruct Hcase as [([m Hm]&->&->)|(Hm&Hf&->&->)].
  - exists i, inv. repeat split; auto.
    unfold accept_invite. rewrite Hc, Hi, He, Hx, Hb, Hd, Hm. reflexivity.
  - eexists i, _. split; [exact Hc|]. split.
    + simpl. rewrite lookup_insert_eq. reflexivity.
    + unfold accept_invite. rewrite Hc. simpl. rewrite lookup_insert_eq.
      unfold invite_expired in *. simpl. rewrite He.
      match goal with |- context [if uses_exhausted ?x then _ else _] =>
        destruct (uses_exhausted x) end; [reflexivity|].
      rewrite Hb, Hd, lookup_insert_eq. reflexivity.
Qed.

(** The use counts of the invites stay within [max_uses] (when it is
    positive) and non-negative. *)
Definition uses_bounded (db : Db) : Prop :=
  forall i inv, board_invites db !! i = Some inv ->
    0 <= inv_use_count inv /\
    (forall m, inv_max_uses inv = Some m -> 0 < m -> inv_use_count inv <= m).

(** [accept_invite] keeps every invite's use count within its positive
    [max_uses]. *)
Theorem accept_invite_uses_bounded db iid uid now db' r :
  uses_bounded db -> accept_invite canon db iid uid now = HOk (db', r) ->
  uses_bounded db'.
Proof.
  intros Hinv H. destruct r as [msg bid].
  apply accept_ok_cases in H as (i&inv&b&Hc&Hi&He&Hx&Hb&Hd&->&Hcase).
  destruct Hcase as [(_&->&_)|(Hm&Hf&->&->)]; [exact Hinv|].
  intros j invj. simpl. destruct (decide (i = j)) as [<-|Hne].
  - rewrite lookup_insert_eq. intros Hj. injection Hj as <-. simpl.
    destruct (Hinv i inv Hi) as [H0 Hmax]. split; [lia|].
    intros m Hmu Hpos. unfold uses_exhausted in Hx. rewrite Hmu in Hx.
    destruct (Z.eqb_spec m 0); [lia|]. simpl in Hx.
    apply Z.leb_gt in Hx. lia.
  - rewrite lookup_insert_ne by exact Hne. apply Hinv.
Qed.

(** [create_invite] keeps the use counts bounded: a new invite starts
    at zero uses. *)
Theorem create_invite_uses_bounded db bid uid r days max_uses new_id now db' inv :
  uses_bounded db ->
  create_invite canon db bid uid r days max_uses new_id now = HOk (db', inv) ->
  uses_bounded db'.
Proof.
  intros Hinv H. unfold create_invite in H.
  apply hbind_ok in H as [[k b] [_ H]]. simpl in H.
  destruct (_ || _); simpl in H; [|discriminate].
  apply hbind_ok in H as [ex [_ H]].
  destruct (match max_uses with Some m => fits_int32 m | None => true end);
    simpl in H; [|discriminate].
  inversion H; subst; clear H.
  intros j invj. simpl. destruct (decide (new_id = j)) as [<-|Hne].
  - rewrite lookup_insert_eq. intros Hj. injection Hj as <-. simpl. split; [lia|].
    intros m _ Hm. lia.
  - rewrite lookup_insert_ne by exact Hne. apply Hinv.
Qed.

(** Every board's owner holds the role "owner" in its members, only a
    board's owner holds it, every member row belongs to a board, and
    invites only grant "editor" or "viewer". *)
Definition owner_inv (db : Db) : Prop :=
  (forall k b, boards db !! k = Some b ->
     exists m, board_members db !! (k, owner_id b) = Some m /\ role m = "owner") /\
  (forall k u m, board_members db !! (k, u) = Some m ->
     exists b, boards db !! k = Some b /\ (role m = "owner" -> u = owner_id b)) /\
  (forall i inv, board_invites db !! i = Some inv ->
     inv_role inv = "editor" \/ inv_role inv = "viewer").

Lemma grantable_not_owner r : r = "editor" \/ r = "viewer" -> r <> "owner".
Proof. intros [->| ->]; discriminate. Qed.

Lemma add_board_inv db n b u now :
  owner_inv db -> boards db !! n = None -> owner_id b = u ->
  owner_inv (set_members (set_boards db (<[n := b]> (boards db)))
               (<[(n, u) := {| role := "owner"; invited_at := now |}]> (board_members db))).
Proof.
  intros (I1&I2&I3) Hn Ho. split; [|split]; simpl.
  - intros k b'. destruct (decide (n = k)) as [<-|Hne].
    + rewrite lookup_insert_eq. intros [= <-]. rewrite Ho, lookup_insert_eq. eauto.
    + rewrite lookup_insert_ne by exact Hne. intros Hk.
      destruct (I1 k b' Hk) as (m&Hm&Hr). exists m.
      rewrite lookup_insert_ne by congruence. auto.
  - intros k u' m. destruct (decide ((n, u) = (k, u'))) as [Heq|Hne].
    + injection Heq as <- <-. rewrite lookup_insert_eq. intros [= <-].
      exists b. rewrite lookup_insert_eq. auto.
    + rewrite lookup_insert_ne by exact Hne. intros Hm.
      destruct (I2 k u' m Hm) as (b'&Hb'&Hr).
      assert (n <> k) by congruence.
      exists b'. rewrite lookup_insert_ne by assumption. auto.
  - exact I3.
Qed.

Lemma update_row_inv db k b b' :
  owner_inv db -> boards db !! k = Some b -> owner_id b' = owner_id b ->
  owner_inv (set_boards db (<[k := b']> (boards db))).
Proof.
  intros (I1&I2&I3) Hb Ho. split; [|split]; simpl.
  - intros k' b''. destruct (decide (k = k')) as [<-|Hne].
    + rewrite lookup_insert_eq. intros [= <-]. rewrite Ho. eauto.
    + rewrite lookup_insert_ne by exact Hne. eauto.
  - intros k' u m Hm. destruct (I2 k' u m Hm) as (b''&Hb''&Hr).
    destruct (decide (k = k')) as [<-|Hne].
    + exists b'. rewrite lookup_insert_eq. rewrite Hb in Hb''. injection Hb'' as <-.
      rewrite Ho. auto.
    + exists b''. rewrite lookup_insert_ne by exact Hne. auto.
  - exact I3.
Qed.

(** A sequence of route calls. *)
Inductive Op :=
| OpCreateBoard (uid name new_id : string) (now : Z)
| OpUpdateBoard (board_id uid : string) (name : option string) (public : option bool) (now : Z)
| OpDeleteBoard (board_id uid : string) (now : Z)
| OpDuplicateBoard (board_id uid new_id : string) (now : Z)
| OpCreateInvite (board_id uid r : string) (days max_uses : option Z) (new_id : string) (now : Z)
| OpAcceptInvite (invite_id uid : string) (now : Z)
| OpUpdateMemberRole (board_id uid user_id r : string)
| OpRemoveMember (board_id uid user_id : string).

Definition committed {A} (r : HResult (Db * A)) : option Db :=
  match r with HOk (db', _) => Some db' | _ => None end.

Definition apply_op (db : Db) (op : Op) : option Db :=
  match op with
  | OpCreateBoard uid name new_id now => committed (create_board db uid name new_id now)
  | OpUpdateBoard bid uid name public now =>
      committed (update_board canon db bid uid name public now)
  | OpDeleteBoard bid uid now =>
      match delete_board canon db bid uid now with HOk db' => Some db' | _ => None end
  | OpDuplicateBoard bid uid new_id now =>
      committed (duplicate_board canon db bid uid new_id now)
  | OpCreateInvite bid uid r days max_uses new_id now =>
      committed (create_invite canon db bid uid r days max_uses new_id now)
  | OpAcceptInvite iid uid now => committed (accept_invite canon db iid uid now)
  | OpUpdateMemberRole bid uid user_id r =>
      committed (update_member_role canon db bid uid user_id r)
  | OpRemoveMember bid uid user_id =>
      match remove_member canon db bid uid user_id with HOk db' => Some db' | _ => None end
  end.

(** What the calls assume: [uuid4] gives a board id not in use, and a
    member's id in a path is written in its canonical spelling. *)
Definition op_ok (db : Db) (op : Op) : Prop :=
  match op with
  | OpCreateBoard _ _ new_id _ | OpDuplicateBoard _ _ new_id _ => boards db !! new_id = None
  | OpUpdateMemberRole _ _ user_id _ | OpRemoveMember _ _ user_id =>
      forall t, canon user_id = Some t -> t = user_id
  | _ => True
  end.

Definition empty_db : Db :=
  {| boards := ∅; board_members := ∅; board_invites := ∅ |}.

Inductive reachable : Db -> Prop :=
| reach_empty : reachable empty_db
| reach_step db op db' : reachable db -> op_ok db op -> apply_op db op = Some db' -> reachable db'.

Lemma gbao_ok db bid uid k b :
  get_board_as_owner canon db bid uid = HOk (k, b) ->
  canon bid = Some k /\ boards db !! k = Some b /\ deleted_at b = None /\ owner_id b = uid.
Proof.
  unfold get_board_as_owner, select_live_board.
  destruct (canon bid) as [k0|]; simpl; [|discriminate].
  destruct (boards db !! k0) as [b0|] eqn:Hb; simpl; [|discriminate].
  destruct (deleted_at b0) eqn:Hd; simpl; [discriminate|].
  destruct (String.eqb_spec (owner_id b0) uid); simpl; [|discriminate].
  intros [= <- <-]. auto.
Qed.

Lemma step_owner_inv db op db' :
  owner_inv db -> op_ok db op -> apply_op db op = Some db' -> owner_inv db'.
Proof.
  intros Hinv Hok Hap. destruct op; simpl in Hok, Hap.
  - (* create_board *)
    unfold create_board in Hap. destruct (fits_varchar255 name); simpl in Hap; [|discriminate].
    injection Hap as <-. apply add_board_inv; auto.
  - (* update_board *)
    destruct (update_board canon db board_id uid name public now) as [[d b']| |] eqn:Hu;
      simpl in Hap; try discriminate. injection Hap as <-.
    unfold update_board in Hu. apply hbind_ok in Hu as [[k b] [Hg Hu]].
    apply gbwa_ok in Hg as (_&Hb&_). simpl in Hu.
    destruct (fits_varchar255 _); simpl in Hu; [|discriminate].
    injection Hu as <- _. eapply update_row_inv; eauto; reflexivity.
  - (* delete_board *)
    destruct (delete_board canon db board_id uid now) as [d| |] eqn:Hu; try discriminate.
    injection Hap as <-.
    unfold delete_board in Hu. apply hbind_ok in Hu as [[k b] [Hg Hu]].
    apply gbwa_ok in Hg as (_&Hb&_). injection Hu as <-.
    eapply update_row_inv; eauto; reflexivity.
  - (* duplicate_board *)
    destruct (duplicate_board canon db board_id uid new_id now) as [[d nb]| |] eqn:Hu;
      simpl in Hap; try discriminate. injection Hap as <-.
    unfold duplicate_board in Hu. apply hbind_ok in Hu as [[k b] [_ Hu]]. simpl in Hu.
    destruct (fits_varchar255 _); simpl in Hu; [|discriminate].
    injection Hu as <- _. apply add_board_inv; auto.
  - (* create_invite *)
    destruct (create_invite canon db board_id uid r days max_uses new_id now) as [[d inv]| |]
      eqn:Hu; simpl in Hap; try discriminate. injection Hap as <-.
    unfold create_invite in Hu. apply hbind_ok in Hu as [[k b] [_ Hu]]. simpl in Hu.
    destruct (String.eqb_spec r "editor"), (String.eqb_spec r "viewer");
      simpl in Hu; try discriminate;
    apply hbind_ok in Hu as [ex [_ Hu]];
    (destruct (match max_uses with Some m => fits_int32 m | None => true end);
       simpl in Hu; [|discriminate]);
    injection Hu as <- _;
    destruct Hinv as (I1&I2&I3); (split; [|split]); simpl; auto;
    intros j invj; (destruct (decide (new_id = j)) as [<-|Hne];
      [rewrite lookup_insert_eq; intros [= <-]; simpl; auto
      |rewrite lookup_insert_ne by exact Hne; apply I3]).
  - (* accept_invite *)
    destruct (accept_invite canon db invite_id uid now) as [[d [msg bid]]| |] eqn:Hu;
      simpl in Hap; try discriminate. injection Hap as <-.
    apply accept_ok_cases in Hu as (i&inv&b&Hc&Hi&He&Hx&Hb&Hd&->&Hcase).
    destruct Hcase as [(_&->&_)|(Hm&Hf&_&->)]; [exact Hinv|].
    destruct Hinv as (I1&I2&I3).
    assert (Hr := grantable_not_owner _ (I3 i inv Hi)).
    split; [|split]; simpl.
    + intros k b' Hk. destruct (I1 k b' Hk) as (m&Hm'&Hro). exists m.
      rewrite lookup_insert_ne by congruence. auto.
    + intros k u m. destruct (decide ((inv_board_id inv, uid) = (k, u))) as [Heq|Hne].
      * injection Heq as <- <-. rewrite lookup_insert_eq. intros [= <-].
        exists b. split; [exact Hb|]. simpl. intros; contradiction.
      * rewrite lookup_insert_ne by exact Hne. apply I2.
    + intros j invj. destruct (decide (i = j)) as [<-|Hne].
      * rewrite lookup_insert_eq. intros [= <-]. simpl. apply (I3 i inv Hi).
      * rewrite lookup_insert_ne by exact Hne. apply I3.
  - (* update_member_role *)
    destruct (update_member_role canon db board_id uid user_id r) as [[d m']| |] eqn:Hu;
      simpl in Hap; try discriminate. injection Hap as <-.
    unfold update_member_role in Hu. apply hbind_ok in Hu as [[k b] [Hg Hu]].
    apply gbao_ok in Hg as (_&Hb&_). simpl in Hu.
    destruct (String.eqb r "editor" || String.eqb r "viewer") eqn:Hrv; simpl in Hu;
      [|discriminate].
    assert (Hr : r <> "owner") by (intros ->; discriminate Hrv).
    destruct (String.eqb_spec (owner_id b) user_id) as [|Hneo]; [discriminate|].
    destruct (canon user_id) as [t|] eqn:Hc; [|discriminate].
    specialize (Hok t eq_refl); subst t.
    destruct (board_members db !! (k, user_id)) as [m|] eqn:Hm; [|discriminate].
    injection Hu as <- _.
    destruct Hinv as (I1&I2&I3). split; [|split]; simpl; auto.
    + intros k' b' Hk'. destruct (I1 k' b' Hk') as (m0&Hm0&Hro). exists m0.
      rewrite lookup_insert_ne; [auto|].
      intros Heq. injection Heq as <- Ho. rewrite Hb in Hk'. injection Hk' as <-. congruence.
    + intros k' u m0. destruct (decide ((k, user_id) = (k', u))) as [Heq|Hne].
      * injection Heq as Hk Hu'. subst k' u. rewrite lookup_insert_eq.
        intros Hs. injection Hs as <-.
        exists b. split; [exact Hb|]. simpl. intros; contradiction.
      * rewrite lookup_insert_ne by exact Hne. apply I2.
  - (* remove_member *)
    destruct (remove_member canon db board_id uid user_id) as [d| |] eqn:Hu; try discriminate.
    injection Hap as <-.
    unfold remove_member in Hu. apply hbind_ok in Hu as [[k b] [Hg Hu]].
    apply gbao_ok in Hg as (_&Hb&_). simpl in Hu.
    destruct (String.eqb_spec (owner_id b) user_id) as [|Hneo]; [discriminate|].
    destruct (canon user_id) as [t|] eqn:Hc; [|discriminate].
    specialize (Hok t eq_refl); subst t.
    destruct (board_members db !! (k, user_id)) as [m|] eqn:Hm; [|discriminate].
    injection Hu as <-.
    destruct Hinv as (I1&I2&I3). split; [|split]; simpl; auto.
    + intros k' b' Hk'. destruct (I1 k' b' Hk') as (m0&Hm0&Hro). exists m0.
      rewrite lookup_delete_ne; [auto|].
      intros Heq. injection Heq as <- Ho. rewrite Hb in Hk'. injection Hk' as <-. congruence.
    + intros k' u m0. destruct (decide ((k, user_id) = (k', u))) as [Heq|Hne].
      * injection Heq as Hk Hu'. subst k' u. rewrite lookup_delete_eq. discriminate.
      * rewrite lookup_delete_ne by exact Hne. apply I2.
Qed.

(** Through any sequence of the board and sharing routes, started from an
    empty database, with fresh board ids and member ids written
    canonically, each board's owner keeps the role "owner", nobody else
    gets it, and every member row belongs to a board. *)
Theorem reachable_owner_inv db : reachable db -> owner_inv db.
Proof.
  induction 1 as [|db op db' _ IH Hok Hap].
  - split; [|split]; simpl; intros *; rewrite lookup_empty; discriminate.
  - eapply step_owner_inv; eauto.
Qed.

(** The owner checks of [update_member_role] compare the path's text
    with [str(board.owner_id)], while the database compares UUIDs: a
    different spelling of the owner's id (say, upper case) passes the
    check and the owner's role is changed. *)
Theorem owner_role_changed_by_other_spelling db bid uid user_id r k b m :
  get_board_as_owner canon db bid uid = HOk (k, b) ->
  r = "editor" \/ r = "viewer" ->
  canon user_id = Some (owner_id b) -> user_id <> owner_id b ->
  board_members db !! (k, owner_id b) = Some m ->
  exists db',
    update_member_role canon db bid uid user_id r = HOk (db', {| role := r; invited_at := invited_at m |}) /\
    board_members db' !! (k, owner_id b) = Some {| role := r; invited_at := invited_at m |}.
Proof.
  intros Hg Hr Hc Hne Hm. unfold update_member_role. rewrite Hg. simpl.
  assert (Hv : (String.eqb r "editor" || String.eqb r "viewer") = true).
  { destruct Hr as [->| ->]; reflexivity. }
  rewrite Hv. simpl.
  destruct (String.eqb_spec (owner_id b) user_id) as [He|_]; [congruence|].
  rewrite Hc, Hm. eexists. split; [reflexivity|]. simpl. apply lookup_insert_eq.
Qed.

(** Likewise [remove_member] deletes the owner's own membership when the
    owner's id is spelled differently in the path. *)
Theorem owner_removed_by_other_spelling db bid uid user_id k b m :
  get_board_as_owner canon db bid uid = HOk (k, b) ->
  canon user_id = Some (owner_id b) -> user_id <> owner_id b ->
  board_members db !! (k, owner_id b) = Some m ->
  exists db',
    remove_member canon db bid uid user_id = HOk db' /\
    board_members db' !! (k, owner_id b) = None /\ boards db' !! k = Some b.
Proof.
  intros Hg Hc Hne Hm. pose proof Hg as Hg'. apply gbao_ok in Hg' as (_&Hb&_).
  unfold remove_member. rewrite Hg. simpl.
  destruct (String.eqb_spec (owner_id b) user_id) as [He|_]; [congruence|].
  rewrite Hc, Hm. eexists. split; [reflexivity|]. simpl.
  split; [apply lookup_delete_eq|exact Hb].
Qed.

End Props.

End BoardsProofs.

(* ------------------------------------------------------------------ *)
(** ** comments.py: [extract_mentions] *)

Module Mentions.

(** Strings are read as Latin-1 text, one character per byte.  Python's
    [\w] on such characters: [str.isalnum()] or the underscore. *)
Definition is_word_char (c : ascii) : bool :=
  let n := Ascii.nat_of_ascii c in
  let within (a b : nat) := (a <=? n)%nat && (n <=? b)%nat in
  (within 48 57 || within 65 90 || (n =? 95) || within 97 122 ||
   (n =? 170) || within 178 179 || (n =? 181) || within 185 186 ||
   within 188 190 || within 192 214 || within 216 246 || within 248 255)%nat.

(** [re.findall(r'@(\w+)', content)] as the scan the regex engine does:
    at each position try ['@'] followed by the longest run of word
    characters; on a match record the run and go on after it, otherwise
    go on at the next position. *)
Inductive MState :=
| Scan
| AfterAt
| InWord (w : string).

Definition scan_char (c : ascii) : MState :=
  if Ascii.eqb c "@"%char then AfterAt else Scan.

Fixpoint findall_go (st : MState) (s : string) : list string :=
  match s with
  | EmptyString => match st with InWord w => [w] | _ => [] end
  | String c s' =>
      match st with
      | Scan => findall_go (scan_char c) s'
      | AfterAt =>
          if is_word_char c then findall_go (InWord (String c EmptyString)) s'
          else findall_go (scan_char c) s'
      | InWord w =>
          if is_word_char c then findall_go (InWord (w +:+ String c EmptyString)) s'
          else w :: findall_go (scan_char c) s'
      end
  end.

Definition extract_mentions (content : string) : list string := findall_go Scan content.

Fixpoint all_word (s : string) : bool :=
  match s with
  | EmptyString => true
  | String c s' => is_word_char c && all_word s'
  end.

Fixpoint count_at (s : string) : nat :=
  match s with
  | EmptyString => 0%nat
  | String c s' => ((if Ascii.eqb c "@"%char then 1 else 0) + count_at s')%nat
  end.

End Mentions.

Module MentionsProofs.
Import Mentions.

Lemma app_nil_l_str (t : string) : EmptyString +:+ t = t.
Proof. reflexivity. Qed.

Lemma app_cons_str c (s t : string) : String c s +:+ t = String c (s +:+ t).
Proof. reflexivity. Qed.

Lemma all_word_app s t : all_word (s +:+ t) = all_word s && all_word t.
Proof.
  induction s as [|c s IH]; [reflexivity|].
  rewrite app_cons_str. simpl. rewrite IH. apply andb_assoc.
Qed.

Lemma string_app_assoc (s t u : string) : s +:+ (t +:+ u) = (s +:+ t) +:+ u.
Proof.
  induction s as [|a s IH]; [reflexivity|]. rewrite !app_cons_str, IH. reflexivity.
Qed.

Lemma string_app_nil (s : string) : s +:+ EmptyString = s.
Proof. induction s as [|a s IH]; [reflexivity|]. rewrite app_cons_str, IH. reflexivity. Qed.

Definition state_ok (st : MState) : Prop :=
  match st with InWord w => w <> EmptyString /\ all_word w = true | _ => True end.

Lemma scan_char_ok c : state_ok (scan_char c).
Proof. unfold scan_char. destruct (Ascii.eqb c "@"%char); exact I. Qed.

Lemma findall_go_words st s w :
  state_ok st -> In w (findall_go st s) -> w <> EmptyString /\ all_word w = true.
Proof.
  revert st. induction s as [|c s IH]; intros st Hst Hin; simpl in Hin.
  - destruct st; try contradiction. destruct Hin as [<-|[]]. exact Hst.
  - destruct st as [| |w0].
    + eapply IH; [apply scan_char_ok|exact Hin].
    + destruct (is_word_char c) eqn:Hc; eapply IH; try exact Hin.
      * simpl. split; [discriminate|]. rewrite Hc. reflexivity.
      * apply scan_char_ok.
    + destruct (is_word_char c) eqn:Hc.
      * eapply IH; [|exact Hin]. destruct Hst as [Hne Hw]. split.
        -- destruct w0; [contradiction|]. rewrite app_cons_str. discriminate.
        -- rewrite all_word_app, Hw. simpl. rewrite Hc. reflexivity.
      * destruct Hin as [<-|Hin]; [exact Hst|].
        eapply IH; [apply scan_char_ok|exact Hin].
Qed.

(** Every mention [extract_mentions] returns is a nonempty run of word
    characters (so holds no ['@'] and no space). *)
Theorem mentions_are_words content w :
  In w (extract_mentions content) -> w <> EmptyString /\ all_word w = true.
Proof. apply findall_go_words. exact I. Qed.

Definition pending (st : MState) : nat := match st with Scan => 0%nat | _ => 1%nat end.

Lemma scan_char_pending c :
  pending (scan_char c) = if Ascii.eqb c "@"%char then 1%nat else 0%nat.
Proof. unfold scan_char. destruct (Ascii.eqb c "@"%char); reflexivity. Qed.

Lemma findall_go_count st s :
  (length (findall_go st s) <= pending st + count_at s)%nat.
Proof.
  revert st. induction s as [|c s IH]; intros st; simpl.
  - destruct st; simpl; lia.
  - specialize (IH (scan_char c)) as IHs. rewrite scan_char_pending in IHs.
    destruct st as [| |w]; simpl.
    + lia.
    + destruct (is_word_char c).
      * specialize (IH (InWord (String c EmptyString))). simpl in IH. lia.
      * lia.
    + destruct (is_word_char c).
      * specialize (IH (InWord (w +:+ String c EmptyString))). simpl in IH. lia.
      * simpl. lia.
Qed.

(** There are never more mentions than ['@'] signs; in particular a
    text without ['@'] mentions nobody. *)
Theorem mentions_bounded_by_at content :
  (length (extract_mentions content) <= count_at content)%nat.
Proof. apply (findall_go_count Scan). Qed.

Definition flush (st : MState) : list string :=
  match st with InWord w => [w] | _ => [] end.

Lemma findall_go_app st s1 :
  exists l st', forall t, findall_go st (s1 +:+ t) = l ++ findall_go st' t.
Proof.
  revert st. induction s1 as [|c s1 IH]; intros st.
  - exists [], st. reflexivity.
  - destruct st as [| |w]; simpl.
    + destruct (IH (scan_char c)) as (l&st'&H). eauto.
    + destruct (is_word_char c).
      * destruct (IH (InWord (String c EmptyString))) as (l&st'&H). eauto.
      * destruct (IH (scan_char c)) as (l&st'&H). eauto.
    + destruct (is_word_char c).
      * destruct (IH (InWord (w +:+ String c EmptyString))) as (l&st'&H). eauto.
      * destruct (IH (scan_char c)) as (l&st'&H). exists (w :: l), st'.
        intros t. simpl. rewrite H. reflexivity.
Qed.

Lemma findall_go_sep st c s :
  is_word_char c = false -> Ascii.eqb c "@"%char = false ->
  findall_go st (String c s) = flush st ++ findall_go Scan s.
Proof.
  intros Hw Ha. destruct st; simpl; unfold scan_char; rewrite ?Hw, ?Ha; reflexivity.
Qed.

(** Text joined at a character that is neither a word character nor
    ['@'] (a space, say) has the mentions of both parts, in order. *)
Theorem mentions_split s1 c s2 :
  is_word_char c = false -> Ascii.eqb c "@"%char = false ->
  extract_mentions (s1 +:+ String c s2) = extract_mentions s1 ++ extract_mentions s2.
Proof.
  intros Hw Ha. unfold extract_mentions.
  destruct (findall_go_app Scan s1) as (l&st'&H).
  rewrite H, findall_go_sep by assumption.
  specialize (H EmptyString). rewrite string_app_nil in H. rewrite H.
  destruct st'; simpl; rewrite ?app_nil_r; try reflexivity.
  rewrite <- app_assoc. reflexivity.
Qed.

Lemma findall_go_word w m rest :
  all_word m = true ->
  findall_go (InWord w) (m +:+ String " "%char rest) = (w +:+ m) :: findall_go Scan rest.
Proof.
  revert w. induction m as [|c m IH]; intros w Hm; simpl.
  - rewrite ?app_nil_l_str, string_app_nil. reflexivity.
  - simpl in Hm. apply andb_prop in Hm as [Hc Hm].
    rewrite ?app_cons_str. simpl. rewrite Hc, IH by exact Hm.
    rewrite <- string_app_assoc, app_cons_str, app_nil_l_str. reflexivity.
Qed.

(** Writing names as "@name " and extracting the mentions gives the names
    back, for names made of word characters. *)
Theorem mentions_roundtrip names :
  Forall (fun n => n <> EmptyString /\ all_word n = true) names ->
  extract_mentions (foldr (fun n acc => "@" +:+ n +:+ String " "%char acc) EmptyString names)
  = names.
Proof.
  unfold extract_mentions. induction 1 as [|n names [Hne Hn] _ IH]; [reflexivity|].
  simpl. destruct n as [|c m]; [contradiction|]. simpl in Hn.
  apply andb_prop in Hn as [Hc Hm].
  rewrite app_nil_l_str, app_cons_str. simpl. rewrite Hc.
  rewrite findall_go_word by exact Hm. rewrite app_cons_str, app_nil_l_str, IH.
  reflexivity.
Qed.

End MentionsProofs.

(* ------------------------------------------------------------------ *)
(** ** models/comment.py and routes/comments.py *)

Module Comments.
Import Boards Mentions.

(** A [comments] row; positions are Python floats. *)
Record Comment := {
  c_board_id : string;
  c_parent_id : option string;
  author_id : string;
  content : string;
  position_x : option float;
  position_y : option float;
  resolved : bool;
  resolved_by : option string;
  resolved_at : option Z;
  c_created_at : Z;
  c_updated_at : Z;
}.

(** The board tables, the [comments] rows and the [comment_mentions]
    rows [(comment_id, user_id)]. *)
Record CDb := {
  bdb : Db;
  comments : gmap string Comment;
  comment_mentions : gset (string * string);
}.

Section Routes.

Variable canon : string -> option string.

(** [select(User).join(BoardMember, ...).where(BoardMember.board_id ==
    board_id, User.name.ilike(f"%{name}%"))]: the ids of the board's
    members whose name matches. *)
Variable find_mentioned : string -> string -> list string.

(** The mention loop of [create_comment]: a query returning several
    users makes [scalar_one_or_none()] raise. *)
Fixpoint collect_mentions (k cid : string) (names : list string)
    : HResult (list (string * string)) :=
  match names with
  | [] => HOk []
  | name :: rest =>
      match find_mentioned k name with
      | [] => collect_mentions k cid rest
      | [u] => hbind (collect_mentions k cid rest) (fun ms => HOk ((cid, u) :: ms))
      | _ => HFail "MultipleResultsFound"
      end
  end.

(** comments.py [create_comment]; [new_id] is the [uuid4] default.  Two
    [CommentMention] rows with the same key violate the primary key at
    the commit. *)
Definition create_comment (db : CDb) (board_id uid text : string) (parent_id : option string)
    (px py : option float) (new_id : string) (now : Z) : HResult (CDb * Comment) :=
  hbind (comments_get_board_with_access canon (bdb db) board_id uid) (fun '(k, _) =>
  let has_parent := match parent_id with Some p => negb (String.eqb p "") | None => false end in
  let parent :=
    match parent_id with
    | Some p =>
        if has_parent then
          match canon p with
          | None => HFail "DataError"
          | Some p' =>
              match comments db !! p' with
              | Some pc => if String.eqb (c_board_id pc) k then HOk (Some p')
                           else HErr 404 "Parent comment not found"
              | None => HErr 404 "Parent comment not found"
              end
          end
        else HOk None
    | None => HOk None
    end in
  hbind parent (fun parent' =>
  let c := {| c_board_id := k; c_parent_id := parent'; author_id := uid; content := text;
              position_x := if has_parent then None else px;
              position_y := if has_parent then None else py;
              resolved := false; resolved_by := None; resolved_at := None;
              c_created_at := now; c_updated_at := now |} in
  hbind (collect_mentions k new_id (extract_mentions text)) (fun ms =>
  if bool_decide (NoDup ms) then
    HOk ({| bdb := bdb db; comments := <[new_id := c]> (comments db);
            comment_mentions := list_to_set ms ∪ comment_mentions db |}, c)
  else HFail "IntegrityError"))).

(** comments.py [update_comment] *)
Definition update_comment (db : CDb) (comment_id uid : string)
    (text : option string) (resolve : option bool) (now : Z) : HResult (CDb * Comment) :=
  match canon comment_id with
  | None => HFail "DataError"
  | Some ci =>
  match comments db !! ci with
  | None => HErr 404 "Comment not found"
  | Some c =>
      hbind (comments_get_board_with_access canon (bdb db) (c_board_id c) uid) (fun _ =>
      let edited :=
        match text with
        | Some t =>
            if negb (String.eqb (author_id c) uid) then
              HErr 403 "Only the author can edit this comment"
            else HOk t
        | None => HOk (content c)
        end in
      hbind edited (fun t =>
      let '(r, rb, ra) :=
        match resolve with
        | Some true => if negb (resolved c) then (true, Some uid, Some now)
                       else (resolved c, resolved_by c, resolved_at c)
        | Some false => if resolved c then (false, None, None)
                        else (resolved c, resolved_by c, resolved_at c)
        | None => (resolved c, resolved_by c, resolved_at c)
        end in
      let c' := {| c_board_id := c_board_id c; c_parent_id := c_parent_id c;
                   author_id := author_id c; content := t;
                   position_x := position_x c; position_y := position_y c;
                   resolved := r; resolved_by := rb; resolved_at := ra;
                   c_created_at := c_created_at c; c_updated_at := now |} in
      HOk ({| bdb := bdb db; comments := <[ci := c']> (comments db);
              comment_mentions := comment_mentions db |}, c')))
  end
  end.

End Routes.

End Comments.

Module CommentsProofs.
Import Boards Mentions Comments.

Section Props.

Variable canon : string -> option string.
Variable find_mentioned : string -> string -> list string.

Lemma hbind_ok' {A B} (r : HResult A) (f : A -> HResult B) (x : B) :
  hbind r f = HOk x -> exists a, r = HOk a /\ f a = HOk x.
Proof. destruct r; simpl; try discriminate. eauto. Qed.

(** A comment is resolved exactly when it records who resolved it and
    when. *)
Definition resolution_ok (c : Comment) : Prop :=
  (resolved c = true /\ is_Some (resolved_by c) /\ is_Some (resolved_at c)) \/
  (resolved c = false /\ resolved_by c = None /\ resolved_at c = None).

Definition all_resolution_ok (db : CDb) : Prop :=
  forall ci c, comments db !! ci = Some c -> resolution_ok c.

Lemma insert_resolution_ok db ci c :
  all_resolution_ok db -> resolution_ok c ->
  all_resolution_ok {| bdb := bdb db; comments := <[ci := c]> (comments db);
                       comment_mentions := comment_mentions db |}.
Proof.
  intros Hall Hc cj cj'. simpl. destruct (decide (ci = cj)) as [<-|Hne].
  - rewrite lookup_insert_eq. intros [= <-]. exact Hc.
  - rewrite lookup_insert_ne by exact Hne. apply Hall.
Qed.

(** [create_comment] and [update_comment] keep every comment's
    [resolved] flag in step with [resolved_by] and [resolved_at]. *)
Theorem comment_routes_keep_resolution db :
  all_resolution_ok db ->
  (forall bid uid text parent px py new_id now db' c,
     create_comment canon find_mentioned db bid uid text parent px py new_id now = HOk (db', c) ->
     all_resolution_ok db') /\
  (forall cid uid text resolve now db' c,
     update_comment canon db cid uid text resolve now = HOk (db', c) ->
     all_resolution_ok db').
Proof.
  intros Hall. split.
  - intros * H. unfold create_comment in H.
    apply hbind_ok' in H as [[k b] [_ H]]. simpl in H.
    apply hbind_ok' in H as [par [_ H]].
    apply hbind_ok' in H as [ms [_ H]].
    destruct (bool_decide (NoDup ms)); [|discriminate]. injection H as <- _.
    intros cj cj'. simpl. destruct (decide (new_id = cj)) as [<-|Hne].
    + rewrite lookup_insert_eq. intros [= <-]. right. simpl. auto.
    + rewrite lookup_insert_ne by exact Hne. apply Hall.
  - intros * H. unfold update_comment in H.
    destruct (canon cid) as [ci|]; [|discriminate].
    destruct (comments db !! ci) as [c0|] eqn:Hc0; [|discriminate].
    apply hbind_ok' in H as [_ [_ H]].
    apply hbind_ok' in H as [t [_ H]].
    specialize (Hall ci c0 Hc0) as Hok.
    destruct resolve as [[|]|], (resolved c0) eqn:Hr; simpl in H;
      injection H as <- _; apply insert_resolution_ok; auto;
      unfold resolution_ok; simpl;
      destruct Hok as [(Hr1&Hb1&Ha1)|(Hr1&Hb1&Ha1)]; rewrite Hr in Hr1; try discriminate;
      solve [ right; repeat split; first [reflexivity | assumption]
            | left; repeat split; first [reflexivity | assumption | eexists; reflexivity] ].
Qed.

(** A successful [update_comment] was made by someone with access to
    the comment's board; it changes the text only for the author, keeps
    the author and the board, and stamps [updated_at]. *)
Theorem update_comment_author_only db cid uid text resolve now db' c' :
  update_comment canon db cid uid text resolve now = HOk (db', c') ->
  exists ci c kb,
    canon cid = Some ci /\ comments db !! ci = Some c /\
    comments_get_board_with_access canon (bdb db) (c_board_id c) uid = HOk kb /\
    (text <> None -> author_id c = uid) /\
    content c' = match text with Some t => t | None => content c end /\
    author_id c' = author_id c /\ c_board_id c' = c_board_id c /\
    c_updated_at c' = now /\ comments db' = <[ci := c']> (comments db).
Proof.
  unfold update_comment. intros H.
  destruct (canon cid) as [ci|]; [|discriminate].
  destruct (comments db !! ci) as [c|] eqn:Hc; [|discriminate].
  apply hbind_ok' in H as [kb [Hg H]].
  apply hbind_ok' in H as [t [Ht H]].
  assert (Hauth : text <> None -> author_id c = uid).
  { destruct text; [|congruence]. intros _.
    destruct (String.eqb_spec (author_id c) uid); [assumption|discriminate]. }
  assert (Htext : t = match text with Some t => t | None => content c end).
  { destruct text; [|injection Ht; auto].
    destruct (negb _); [discriminate|]. injection Ht; auto. }
  exists ci, c, kb.
  destruct resolve as [[|]|], (resolved c); simpl in H;
    injection H as <- <-; simpl; repeat split; auto.
Qed.



End Props.

End CommentsProofs.

(* ------------------------------------------------------------------ *)
(** ** Instances of the route properties *)

Module RouteExamples.
Import Retry RefreshRoute.

Definition failing_attempt : Attempt :=
  {| att_execute := Some (OperationalError "server closed the connection unexpectedly");
     att_sleep := None; att_rollback := None |}.

Definition ok_attempt : Attempt :=
  {| att_execute := None; att_sleep := None; att_rollback := None |}.

(** A database that drops the first [n] queries. *)
Definition flaky_env (n : nat) : nat -> Attempt :=
  fun i => if (i <? n)%nat then failing_attempt else ok_attempt.

Lemma flaky_env_fails n i :
  (i < n)%nat -> retried_failure (flaky_env n i) "server closed the connection unexpectedly".
Proof.
  intros Hi. unfold flaky_env. rewrite (proj2 (Nat.ltb_lt i n) Hi).
  repeat split.
Qed.

Lemma execute_with_retry_success_witness :
  (2 < Z.to_nat 3)%nat /\
  (forall i, (i < 2)%nat -> exists m, retried_failure (flaky_env 2 i) m) /\
  att_execute (flaky_env 2 2) = None /\
  execute_with_retry 7%nat (flaky_env 2) 3 = (backoff_events 2 ++ [EvExecute], DbOk 7%nat).
Proof.
  assert (Hf : forall i, (i < 2)%nat -> exists m, retried_failure (flaky_env 2 i) m).
  { intros i Hi. eexists. apply flaky_env_fails. exact Hi. }
  split; [simpl; lia|]. split; [exact Hf|]. split; [reflexivity|].
  apply (RetryProofs.execute_with_retry_success (R:=nat) 7%nat (flaky_env 2) 3 2%nat);
    [simpl; lia|exact Hf|reflexivity].
Defined.

Definition integrity_env : nat -> Attempt :=
  fun i => if (i <? 1)%nat then failing_attempt
           else {| att_execute := Some (DbError "IntegrityError");
                   att_sleep := None; att_rollback := None |}.

Lemma execute_with_retry_no_retry_on_other_witness :
  (1 < Z.to_nat 3)%nat /\
  (forall i, (i < 1)%nat -> exists m, retried_failure (integrity_env i) m) /\
  att_execute (integrity_env 1) = Some (DbError "IntegrityError") /\
  (forall m, DbError "IntegrityError" <> OperationalError m) /\
  execute_with_retry 7%nat integrity_env 3 =
    (backoff_events 1 ++ [EvExecute], DbErr (DbError "IntegrityError")).
Proof.
  assert (Hf : forall i, (i < 1)%nat -> exists m, retried_failure (integrity_env i) m).
  { intros i Hi. eexists. unfold integrity_env. rewrite (proj2 (Nat.ltb_lt i 1) Hi).
    repeat split. }
  assert (Hn : forall m, DbError "IntegrityError" <> OperationalError m) by discriminate.
  split; [simpl; lia|]. split; [exact Hf|]. split; [reflexivity|]. split; [exact Hn|].
  apply (RetryProofs.execute_with_retry_no_retry_on_other (R:=nat) 7%nat integrity_env 3
           1%nat (DbError "IntegrityError")); [simpl; lia|exact Hf|reflexivity|exact Hn].
Defined.

Lemma execute_with_retry_exhausted_witness :
  0 < 3 /\
  (forall i, (i < Z.to_nat 3)%nat ->
     retried_failure (flaky_env 5 i) "server closed the connection unexpectedly") /\
  execute_with_retry 7%nat (flaky_env 5) 3 =
    (backoff_events 2 ++ [EvExecute],
     DbErr (OperationalError "server closed the connection unexpectedly")).
Proof.
  assert (Hf : forall i, (i < Z.to_nat 3)%nat ->
             retried_failure (flaky_env 5 i) "server closed the connection unexpectedly").
  { intros i Hi. apply flaky_env_fails. simpl in Hi. lia. }
  split; [lia|]. split; [exact Hf|].
  apply (RetryProofs.execute_with_retry_exhausted (R:=nat) 7%nat (flaky_env 5) 3
           (fun _ => "server closed the connection unexpectedly")); [lia|exact Hf].
Defined.

Lemma execute_with_retry_nonpositive_witness :
  0 <= 0 /\
  execute_with_retry 7%nat (flaky_env 0) 0 =
    ([], DbErr (TypeError "exceptions must derive from BaseException")).
Proof.
  split; [lia|].
  apply (RetryProofs.execute_with_retry_nonpositive (R:=nat) 7%nat (flaky_env 0) 0). lia.
Defined.

(** The user lookup of a database holding the user "alice". *)
Definition find_alice (v : option JVal) : option string :=
  match v with Some (JStr "alice") => Some "alice" | _ => None end.

Lemma refresh_rejects_access_token_witness :
  jwt_roundtrip ToyJwt.encode_tok ToyJwt.decode_tok /\
  200 <= 100 + access_token_expire_minutes default_settings * 60 /\
  refresh_tokens ToyJwt.encode_tok ToyJwt.decode_tok default_settings 200 find_alice
    (flaky_env 0) (create_access_token ToyJwt.encode_tok default_settings "alice" 100)
  = ([], RHttp 401 "Invalid or expired refresh token").
Proof.
  split; [exact toy_roundtrip|]. split; [simpl; lia|].
  apply (RefreshProofs.refresh_rejects_access_token ToyJwt.encode_tok ToyJwt.decode_tok
           default_settings find_alice (flaky_env 0) "alice" 100 200 toy_roundtrip).
  simpl. lia.
Defined.

Lemma refresh_issues_tokens_for_user_witness :
  jwt_roundtrip ToyJwt.encode_tok ToyJwt.decode_tok /\
  "alice" <> "" /\ find_alice (Some (JStr "alice")) = Some "alice" /\
  att_execute (flaky_env 0 0) = None /\
  200 <= 100 + refresh_token_expire_days default_settings * 86400 /\
  exists access refresh,
    refresh_tokens ToyJwt.encode_tok ToyJwt.decode_tok default_settings 200 find_alice
      (flaky_env 0) (create_refresh_token ToyJwt.encode_tok default_settings "alice" 100)
      = ([EvExecute], ROk (access, refresh)) /\
    (forall t2, t2 <= 200 + access_token_expire_minutes default_settings * 60 ->
       verify_token ToyJwt.decode_tok default_settings access "access" t2
       = PyOk (Some (JStr "alice"))) /\
    (forall t2, t2 <= 200 + refresh_token_expire_days default_settings * 86400 ->
       verify_token ToyJwt.decode_tok default_settings refresh "refresh" t2
       = PyOk (Some (JStr "alice"))).
Proof.
  split; [exact toy_roundtrip|]. split; [discriminate|]. split; [reflexivity|].
  split; [reflexivity|]. split; [simpl; lia|].
  apply (RefreshProofs.refresh_issues_tokens_for_user ToyJwt.encode_tok ToyJwt.decode_tok
           default_settings find_alice (flaky_env 0) "alice" 100 200 toy_roundtrip);
    [discriminate|reflexivity|reflexivity|simpl; lia].
Defined.

Lemma refresh_db_unavailable_witness :
  jwt_roundtrip ToyJwt.encode_tok ToyJwt.decode_tok /\ "alice" <> "" /\
  200 <= 100 + refresh_token_expire_days default_settings * 86400 /\
  (forall i, (i < 3)%nat ->
     retried_failure (flaky_env 3 i) "server closed the connection unexpectedly") /\
  refresh_tokens ToyJwt.encode_tok ToyJwt.decode_tok default_settings 200 find_alice
    (flaky_env 3) (create_refresh_token ToyJwt.encode_tok default_settings "alice" 100)
  = (backoff_events 2 ++ [EvExecute],
     RHttp 503 "Database temporarily unavailable. Please try again.").
Proof.
  assert (Hf : forall i, (i < 3)%nat ->
             retried_failure (flaky_env 3 i) "server closed the connection unexpectedly")
    by (intros i Hi; apply flaky_env_fails; exact Hi).
  split; [exact toy_roundtrip|]. split; [discriminate|]. split; [simpl; lia|].
  split; [exact Hf|].
  apply (RefreshProofs.refresh_db_unavailable ToyJwt.encode_tok ToyJwt.decode_tok
           default_settings find_alice (flaky_env 3) "alice" 100 200
           (fun _ => "server closed the connection unexpectedly") toy_roundtrip);
    [discriminate|simpl; lia|exact Hf].
Defined.

End RouteExamples.

Module BoardExamples.
Import Boards BoardsProofs Mentions MentionsProofs Comments CommentsProofs.

(** A database whose UUID text is already canonical, and one that reads
    UUID text case-insensitively as Postgres does. *)
Definition canon_ident (s : string) : option string := Some s.

Definition lower_ascii (c : ascii) : ascii :=
  let n := Ascii.nat_of_ascii c in
  if ((65 <=? n) && (n <=? 90))%nat then Ascii.ascii_of_nat (n + 32) else c.

Fixpoint lower_str (s : string) : string :=
  match s with
  | EmptyString => EmptyString
  | String c s' => String (lower_ascii c) (lower_str s')
  end.

Definition lower_canon (s : string) : option string := Some (lower_str s).

Definition board_plan : Board :=
  {| board_name := "Plan"; owner_id := "u-owner"; thumbnail_url := None;
     is_public := true; deleted_at := None; created_at := 0; updated_at := 0 |}.

Definition invite_one : BoardInvite :=
  {| inv_board_id := "b1"; inv_role := "editor"; inv_created_by := "u-owner";
     inv_expires_at := Some 1000; inv_max_uses := Some 1; inv_use_count := 0;
     inv_created_at := 0 |}.

Definition owner_row : BoardMember := {| role := "owner"; invited_at := 0 |}.

Definition sample_db : Db :=
  {| boards := {[ "b1" := board_plan ]};
     board_members := <[("b1", "u-ed") := {| role := "editor"; invited_at := 5 |}]>
                        {[ ("b1", "u-owner") := owner_row ]};
     board_invites := {[ "i1" := invite_one ]} |}.

Lemma public_board_hides_members_witness :
  canon_ident "b1" = Some "b1" /\ boards sample_db !! "b1" = Some board_plan /\
  deleted_at board_plan = None /\ is_public board_plan = true /\
  owner_id board_plan <> "u-guest" /\ board_members sample_db !! ("b1", "u-guest") = None /\
  get_board_with_access canon_ident sample_db "b1" "u-guest" false = HOk ("b1", board_plan) /\
  list_members canon_ident sample_db "b1" "u-guest" = HErr 403 "You don't have access to this board".
Proof.
  assert (Hne : owner_id board_plan <> "u-guest") by discriminate.
  do 5 (split; [first [reflexivity | exact Hne]|]).
  split; [reflexivity|].
  apply (public_board_hides_members canon_ident sample_db "b1" "u-guest" "b1" board_plan);
    first [reflexivity | exact Hne].
Defined.

Lemma deleted_board_not_found_witness :
  exists db',
    delete_board canon_ident sample_db "b1" "u-owner" 50 = HOk db' /\
    get_board_with_access canon_ident db' "b1" "u-ed" false = HErr 404 "Board not found" /\
    list_members canon_ident db' "b1" "u-owner" = HErr 404 "Board not found".
Proof.
  eexists. split; [reflexivity|].
  pose proof (deleted_board_not_found canon_ident sample_db "b1" "u-owner" 50 _ "b1" "u-ed" false
                eq_refl eq_refl) as (H1&_).
  pose proof (deleted_board_not_found canon_ident sample_db "b1" "u-owner" 50 _ "b1" "u-owner" false
                eq_refl eq_refl) as (_&_&_&H2).
  exact (conj H1 H2).
Defined.

Lemma update_board_keeps_unset_witness :
  exists db' b',
    update_board canon_ident sample_db "b1" "u-owner" None (Some false) 60 = HOk (db', b') /\
    board_name b' = "Plan" /\ owner_id b' = "u-owner" /\ updated_at b' = 60.
Proof.
  eexists _, _. split; [reflexivity|].
  destruct (update_board_keeps_unset canon_ident sample_db "b1" "u-owner" None (Some false) 60
              _ _ eq_refl) as (k&b&Hk&Hb&_&_&_&_&Ho&Hu&_&Hn&_).
  injection Hk as <-. injection Hb as <-.
  split; [rewrite Hn by reflexivity; reflexivity|]. split; [exact Ho|exact Hu].
Defined.


Fixpoint str_repeat (n : nat) (c : ascii) : string :=
  match n with O => EmptyString | S n' => String c (str_repeat n' c) end.

Definition long_board : Board :=
  {| board_name := str_repeat 250 "a"; owner_id := "u-owner"; thumbnail_url := None;
     is_public := false; deleted_at := None; created_at := 0; updated_at := 0 |}.

Definition long_db : Db :=
  {| boards := {[ "b9" := long_board ]};
     board_members := {[ ("b9", "u-owner") := owner_row ]};
     board_invites := ∅ |}.

Lemma duplicate_board_name_overflow_witness :
  get_board_with_access canon_ident long_db "b9" "u-owner" false = HOk ("b9", long_board) /\
  (248 < String.length (board_name long_board))%nat /\
  duplicate_board canon_ident long_db "b9" "u-owner" "b10" 70 = HFail "DataError".
Proof.
  assert (Hg : get_board_with_access canon_ident long_db "b9" "u-owner" false
               = HOk ("b9", long_board)) by reflexivity.
  assert (Hl : (248 < String.length (board_name long_board))%nat)
    by (apply Nat.ltb_lt; reflexivity).
  split; [exact Hg|]. split; [exact Hl|].
  exact (duplicate_board_name_overflow canon_ident long_db "b9" "u-owner" "b10" 70 _ _ Hg Hl).
Defined.

Lemma create_invite_fields_witness :
  exists db' inv,
    create_invite canon_ident sample_db "b1" "u-owner" "viewer" (Some 0) (Some 5) "i2" 80
      = HOk (db', inv) /\
    inv_expires_at inv = None /\ inv_role inv = "viewer" /\ inv_use_count inv = 0.
Proof.
  eexists _, _. split; [reflexivity|].
  destruct (create_invite_fields canon_ident sample_db "b1" "u-owner" "viewer" (Some 0) (Some 5)
              "i2" 80 _ _ eq_refl) as (_&Hr&Hc&_&_&[_ He]&_).
  split; [apply He; right; reflexivity|]. split; [exact Hr|exact Hc].
Defined.

Lemma accept_invite_effect_witness :
  exists db',
    accept_invite canon_ident sample_db "i1" "u-new" 100 = HOk (db', (joined_msg, "b1")) /\
    board_members db' !! ("b1", "u-new") = Some {| role := "editor"; invited_at := 100 |}.
Proof.
  eexists. split; [reflexivity|].
  destruct (accept_invite_effect canon_ident sample_db "i1" "u-new" 100 _ joined_msg "b1" eq_refl)
    as (i&inv&Hc&Hi&Hb&_&_&[[Hm _]|(_&_&Hms&_)]); [discriminate Hm|].
  injection Hc as <-. injection Hi as <-. rewrite Hms, Hb. apply lookup_insert_eq.
Defined.

Lemma accept_invite_repeat_witness :
  exists db',
    accept_invite canon_ident sample_db "i1" "u-new" 100 = HOk (db', (joined_msg, "b1")) /\
    accept_invite canon_ident db' "i1" "u-new" 100
      = HErr 400 "This invite has reached its maximum uses".
Proof.
  eexists. split; [reflexivity|].
  destruct (accept_invite_repeat canon_ident sample_db "i1" "u-new" 100 _ joined_msg "b1" eq_refl)
    as (i&inv'&Hc&Hi&->).
  injection Hc as <-. vm_compute in Hi. injection Hi as <-. reflexivity.
Defined.

Lemma sample_uses_bounded : uses_bounded sample_db.
Proof.
  intros i inv H. simpl in H. apply lookup_singleton_Some in H as [_ <-]. simpl.
  split; [lia|]. intros m Hm _. injection Hm as <-. lia.
Qed.

Lemma accept_invite_uses_bounded_witness :
  uses_bounded sample_db /\
  exists db' r,
    accept_invite canon_ident sample_db "i1" "u-new" 100 = HOk (db', r) /\ uses_bounded db'.
Proof.
  split; [exact sample_uses_bounded|].
  eexists _, _. split; [reflexivity|].
  exact (accept_invite_uses_bounded canon_ident sample_db "i1" "u-new" 100 _ _
           sample_uses_bounded eq_refl).
Defined.

Lemma create_invite_uses_bounded_witness :
  uses_bounded sample_db /\
  exists db' inv,
    create_invite canon_ident sample_db "b1" "u-owner" "editor" (Some 7) (Some 3) "i2" 80
      = HOk (db', inv) /\ uses_bounded db'.
Proof.
  split; [exact sample_uses_bounded|].
  eexists _, _. split; [reflexivity|].
  exact (create_invite_uses_bounded canon_ident sample_db "b1" "u-owner" "editor" (Some 7)
           (Some 3) "i2" 80 _ _ sample_uses_bounded eq_refl).
Defined.

(** Create a board, invite an editor, and have the editor join. *)
Definition op_create : Op := OpCreateBoard "u-owner" "Plan" "b1" 0.
Definition op_invite : Op := OpCreateInvite "b1" "u-owner" "editor" (Some 7) None "i1" 10.
Definition op_accept : Op := OpAcceptInvite "i1" "u-ed" 20.

Definition after (db : Db) (op : Op) : Db :=
  match apply_op canon_ident db op with Some d => d | None => db end.

Definition shared_db : Db := after (after (after empty_db op_create) op_invite) op_accept.

Lemma reachable_owner_inv_witness :
  reachable canon_ident shared_db /\ owner_inv shared_db /\
  board_members shared_db !! ("b1", "u-ed") = Some {| role := "editor"; invited_at := 20 |}.
Proof.
  assert (H : reachable canon_ident shared_db).
  { apply (reach_step canon_ident (after (after empty_db op_create) op_invite) op_accept);
      [|exact I|reflexivity].
    apply (reach_step canon_ident (after empty_db op_create) op_invite); [|exact I|reflexivity].
    apply (reach_step canon_ident empty_db op_create); [apply reach_empty|reflexivity|reflexivity]. }
  split; [exact H|]. split; [exact (reachable_owner_inv canon_ident shared_db H)|].
  reflexivity.
Defined.

Lemma owner_role_changed_by_other_spelling_witness :
  get_board_as_owner lower_canon sample_db "b1" "u-owner" = HOk ("b1", board_plan) /\
  ("editor" = "editor" \/ "editor" = "viewer") /\
  lower_canon "U-OWNER" = Some (owner_id board_plan) /\ "U-OWNER" <> owner_id board_plan /\
  board_members sample_db !! ("b1", owner_id board_plan) = Some owner_row /\
  exists db',
    update_member_role lower_canon sample_db "b1" "u-owner" "U-OWNER" "editor"
      = HOk (db', {| role := "editor"; invited_at := invited_at owner_row |}) /\
    board_members db' !! ("b1", owner_id board_plan)
      = Some {| role := "editor"; invited_at := invited_at owner_row |}.
Proof.
  assert (Hne : "U-OWNER" <> owner_id board_plan) by discriminate.
  assert (Hr : "editor" = "editor" \/ "editor" = "viewer") by (left; reflexivity).
  split; [reflexivity|]. split; [exact Hr|]. split; [reflexivity|]. split; [exact Hne|].
  split; [reflexivity|].
  apply (owner_role_changed_by_other_spelling lower_canon sample_db "b1" "u-owner" "U-OWNER"
           "editor" "b1" board_plan owner_row); first [reflexivity | exact Hr | exact Hne].
Defined.

Lemma owner_removed_by_other_spelling_witness :
  get_board_as_owner lower_canon sample_db "b1" "u-owner" = HOk ("b1", board_plan) /\
  lower_canon "U-OWNER" = Some (owner_id board_plan) /\ "U-OWNER" <> owner_id board_plan /\
  board_members sample_db !! ("b1", owner_id board_plan) = Some owner_row /\
  exists db',
    remove_member lower_canon sample_db "b1" "u-owner" "U-OWNER" = HOk db' /\
    board_members db' !! ("b1", owner_id board_plan) = None /\
    boards db' !! "b1" = Some board_plan.
Proof.
  assert (Hne : "U-OWNER" <> owner_id board_plan) by discriminate.
  split; [reflexivity|]. split; [reflexivity|]. split; [exact Hne|]. split; [reflexivity|].
  apply (owner_removed_by_other_spelling lower_canon sample_db "b1" "u-owner" "U-OWNER"
           "b1" board_plan owner_row); first [reflexivity | exact Hne].
Defined.

Lemma mentions_are_words_witness :
  In "bob_2" (extract_mentions "hi @alice, see @bob_2!") /\
  "bob_2" <> EmptyString /\ all_word "bob_2" = true.
Proof.
  assert (H : In "bob_2" (extract_mentions "hi @alice, see @bob_2!"))
    by (vm_compute; right; left; reflexivity).
  split; [exact H|]. exact (mentions_are_words _ _ H).
Defined.

Lemma mentions_split_witness :
  is_word_char " "%char = false /\ Ascii.eqb " "%char "@"%char = false /\
  extract_mentions ("see @ann" +:+ String " "%char "and @bo") =
  extract_mentions "see @ann" ++ extract_mentions "and @bo".
Proof.
  split; [reflexivity|]. split; [reflexivity|].
  apply mentions_split; reflexivity.
Defined.

Lemma mentions_roundtrip_witness :
  Forall (fun n => n <> EmptyString /\ all_word n = true) ["alice"; "bob_2"] /\
  extract_mentions (foldr (fun n acc => "@" +:+ n +:+ String " "%char acc) EmptyString
                      ["alice"; "bob_2"]) = ["alice"; "bob_2"].
Proof.
  assert (H : Forall (fun n => n <> EmptyString /\ all_word n = true) ["alice"; "bob_2"]).
  { repeat constructor; discriminate. }
  split; [exact H|]. exact (mentions_roundtrip _ H).
Defined.

Definition comment_one : Comment :=
  {| c_board_id := "b1"; c_parent_id := None; author_id := "u-owner";
     content := "Looks good @alice"; position_x := None; position_y := None;
     resolved := false; resolved_by := None; resolved_at := None;
     c_created_at := 10; c_updated_at := 10 |}.

Definition sample_cdb : CDb :=
  {| bdb := sample_db; comments := {[ "c1" := comment_one ]}; comment_mentions := ∅ |}.

Lemma sample_resolution_ok : all_resolution_ok sample_cdb.
Proof.
  intros ci c H. simpl in H. apply lookup_singleton_Some in H as [_ <-]. right. simpl. auto.
Qed.

Definition no_mentions (k name : string) : list string := [].

Lemma comment_routes_keep_resolution_witness :
  all_resolution_ok sample_cdb /\
  exists db' c,
    update_comment canon_ident sample_cdb "c1" "u-ed" None (Some true) 90 = HOk (db', c) /\
    all_resolution_ok db'.
Proof.
  split; [exact sample_resolution_ok|].
  eexists _, _. split; [reflexivity|].
  exact (proj2 (comment_routes_keep_resolution canon_ident no_mentions sample_cdb
                  sample_resolution_ok) "c1" "u-ed" None (Some true) 90 _ _ eq_refl).
Defined.

Lemma update_comment_author_only_witness :
  exists db' c',
    update_comment canon_ident sample_cdb "c1" "u-ed" None (Some true) 90 = HOk (db', c') /\
    content c' = "Looks good @alice" /\ author_id c' = "u-owner" /\ c_updated_at c' = 90.
Proof.
  eexists _, _. split; [reflexivity|].
  destruct (update_comment_author_only canon_ident sample_cdb "c1" "u-ed" None (Some true) 90
              _ _ eq_refl) as (ci&c&kb&Hc&Hl&_&_&Ht&Ha&_&Hu&_).
  injection Hc as <-. injection Hl as <-.
  split; [exact Ht|]. split; [exact Ha|exact Hu].
Defined.



End BoardExamples.
